(** * katana: the REPL monitor and the base85 unit

    A shallow embedding of [katana/repl/__init__.py] (the directory
    monitor handler, the monitor's [on_flag], the prompt, the [target stop]
    command and the solution printer) and of
    [katana/units/raw/base85_decode.py].

    Python objects live in a store: a unit or a target is a reference into
    a finite map, so that two flags can share one target and a target can
    be mutated in place.  Loops that follow references take fuel. *)

From Stdlib Require Import String Ascii List NArith Lia Bool.
From Stdlib Require Import Strings.Byte DecimalString.
From stdpp Require Import base option list gmap strings.

(** ** colorama's escape sequences *)

Module Colorama.

Definition CSI : string := String (ascii_of_nat 27) "[".
Definition code_to_chars (code : string) : string := CSI +:+ code +:+ "m".

Module Fore.
Definition RED : string := code_to_chars "31".
Definition GREEN : string := code_to_chars "32".
Definition YELLOW : string := code_to_chars "33".
Definition BLUE : string := code_to_chars "34".
Definition MAGENTA : string := code_to_chars "35".
Definition CYAN : string := code_to_chars "36".
End Fore.

Module Style.
Definition BRIGHT : string := code_to_chars "1".
Definition RESET_ALL : string := code_to_chars "0".
End Style.

End Colorama.

Import Colorama.

(** ** A few string helpers of Python *)

(** The newline of ["\n"]. *)
Definition nl : string := String (ascii_of_nat 10) "".

(** The three UTF-8 bytes of the arrow U+279C used by the printers. *)
Definition arrow : string :=
  String (ascii_of_nat 226) (String (ascii_of_nat 158) (String (ascii_of_nat 156) "")).

(** [' ' * n] *)
Fixpoint spaces (n : nat) : string :=
  match n with
  | 0 => ""
  | S k => " " +:+ spaces k
  end.

(** [str(n)] for a non-negative integer. *)
Definition str_of_nat (n : nat) : string :=
  NilZero.string_of_uint (Nat.to_uint n).

(** [s.split("/")[-1]]: what follows the last slash. *)
Fixpoint last_segment_go (s acc : string) : string :=
  match s with
  | EmptyString => acc
  | String c rest =>
      if Ascii.eqb c "/"%char then last_segment_go rest ""
      else last_segment_go rest (acc +:+ String c "")
  end.
Definition last_segment (s : string) : string := last_segment_go s "".

(** ** Objects *)

Definition unit_ref := nat.
Definition target_ref := nat.

(** [katana.target.Target], the attributes the two files read or write. *)
Record Target := mkTarget {
  t_str : string;                 (* str(target) *)
  t_raw : list byte;              (* target.raw *)
  t_is_printable : bool;          (* target.is_printable *)
  t_hexdigest : string;           (* target.hash.hexdigest() *)
  t_parent : option unit_ref;     (* target.parent: the unit that produced it *)
  t_completed : bool;             (* target.completed *)
  t_is_url : bool;                (* target.is_url *)
  t_uri : string                  (* target.url_pieces.group("uri").decode("utf-8") *)
}.

(** [katana.unit.Unit]. *)
Record Unit := mkUnit {
  u_str : string;                 (* str(unit) *)
  u_target : target_ref;          (* unit.target *)
  u_origin : target_ref           (* unit.origin *)
}.

Record Heap := mkHeap {
  units : gmap nat Unit;
  targets : gmap nat Target
}.

(** [link.target] for a unit reference. *)
Definition target_of (h : Heap) (u : unit_ref) : option Target :=
  U ← units h !! u; targets h !! u_target U.

(** The pair [(str(unit), str(unit.target))] one line of a chain prints. *)
Definition entry_of (h : Heap) (u : unit_ref) : option (string * string) :=
  U ← units h !! u; T ← targets h !! u_target U; Some (u_str U, t_str T).

(** ** The chain of units above a flag

    [[
        chain = []
        link = unit
        while link is not None:
            chain.append(link)
            link = link.target.parent
        chain = chain[::-1]
    ]]
    The loop is the same in [ReplMonitor.on_flag] and in
    [Repl.generate_solution].  [None] is fuel exhausted (or a dangling
    reference, which Python does not have). *)

Fixpoint chain_loop (h : Heap) (fuel : nat) (link : option unit_ref)
    (chain : list unit_ref) : option (list unit_ref) :=
  match link with
  | None => Some chain
  | Some u =>
      match fuel with
      | 0 => None
      | S fuel' =>
          T ← target_of h u;
          chain_loop h fuel' (t_parent T) (chain ++ [u])
      end
  end.

Definition build_chain (h : Heap) (fuel : nat) (u : unit_ref) : option (list unit_ref) :=
  chain ← chain_loop h fuel (Some u) [];
  Some (rev chain).

(** One line per unit below the first:
    [f" {' '*n}{MAGENTA}{chain[n]}{RESET_ALL}({RED}{chain[n].target}{RESET_ALL}) {YELLOW}➜ {RESET_ALL}\n"] *)
Definition step_line (n : nat) (e : string * string) : string :=
  " " +:+ spaces n +:+ Fore.MAGENTA +:+ e.1 +:+ Style.RESET_ALL +:+ "("
  +:+ Fore.RED +:+ e.2 +:+ Style.RESET_ALL +:+ ") "
  +:+ Fore.YELLOW +:+ arrow +:+ " " +:+ Style.RESET_ALL +:+ nl.

(** The last line:
    [f" {' ' * len(chain)}{GREEN}{BRIGHT}{flag}{RESET_ALL} - (copied)"] *)
Definition flag_line (n : nat) (flag : string) : string :=
  " " +:+ spaces n +:+ Fore.GREEN +:+ Style.BRIGHT +:+ flag +:+ Style.RESET_ALL
  +:+ " - " +:+ "(copied)".

(** [for n in range(1, len(chain)): log_entry += ...], over the indices [ns]. *)
Fixpoint print_chain (h : Heap) (chain : list unit_ref) (ns : list nat)
    (log_entry : string) : option string :=
  match ns with
  | [] => Some log_entry
  | n :: ns' =>
      u ← chain !! n;
      e ← entry_of h u;
      print_chain h chain ns' (log_entry +:+ step_line n e)
  end.

(** ** [Repl.generate_solution] *)

(** The first line of [generate_solution]:
    [f"{MAGENTA}{chain[0]}{RESET_ALL}({RED}{chain[0].target}{RESET_ALL})\n"] *)
Definition solution_head (e : string * string) : string :=
  Fore.MAGENTA +:+ e.1 +:+ Style.RESET_ALL +:+ "("
  +:+ Fore.RED +:+ e.2 +:+ Style.RESET_ALL +:+ ")" +:+ nl.

Definition generate_solution (h : Heap) (fuel : nat) (flag : unit_ref * string)
    : option string :=
  chain ← build_chain h fuel flag.1;
  first ← chain !! 0;
  e0 ← entry_of h first;
  log_entry ← print_chain h chain (seq 1 (length chain - 1)) (solution_head e0);
  Some (log_entry +:+ flag_line (length chain) flag.2).

(** ** The state of the shell

    The [Manager] and the base [Monitor] are outside the two files; of them
    the shell reads the barrier, the threads, the work queue, the
    configuration and the list of targets, and calls [queue_target]. *)

Record Challenge := mkChallenge {
  c_ident : string;
  c_title : string
}.

Record Manager := mkManager {
  config : gmap string (gmap string string);   (* manager[section][name] *)
  m_targets : list target_ref;                 (* manager.targets *)
  n_waiting : nat;                             (* manager.barrier.n_waiting *)
  threads : list nat;                          (* manager.threads *)
  work_qsize : nat;                            (* manager.work.qsize() *)
  queued : list string;                        (* arguments of manager.queue_target, oldest first *)
  flags : list (unit_ref * string)             (* manager.monitor.flags *)
}.

Record Repl := mkRepl {
  heap : Heap;
  manager : Manager;
  ctf_targets : gmap string (Challenge * option target_ref);
  ctf_submit : Challenge -> string -> bool * string;
                                               (* ctf_provider.submit: a tuple, the verdict
                                                  first ([_ctf_submit] reads [[0]]) *)
  submitted : list (Challenge * string);       (* calls of ctf_provider.submit *)
  paste_buffer : list string;                  (* clipboard.write_to_paste_buffer *)
  alerts : list string;                        (* async_alert *)
  output : list string;                        (* poutput *)
  prompt : string
}.

Definition set_manager (r : Repl) (m : Manager) : Repl :=
  mkRepl (heap r) m (ctf_targets r) (ctf_submit r) (submitted r)
         (paste_buffer r) (alerts r) (output r) (prompt r).

Definition set_heap (r : Repl) (h : Heap) : Repl :=
  mkRepl h (manager r) (ctf_targets r) (ctf_submit r) (submitted r)
         (paste_buffer r) (alerts r) (output r) (prompt r).

Definition set_prompt (r : Repl) (p : string) : Repl :=
  mkRepl (heap r) (manager r) (ctf_targets r) (ctf_submit r) (submitted r)
         (paste_buffer r) (alerts r) (output r) p.

Definition async_alert (r : Repl) (msg : string) : Repl :=
  mkRepl (heap r) (manager r) (ctf_targets r) (ctf_submit r) (submitted r)
         (paste_buffer r) (alerts r ++ [msg]) (output r) (prompt r).

Definition poutput (r : Repl) (msg : string) : Repl :=
  mkRepl (heap r) (manager r) (ctf_targets r) (ctf_submit r) (submitted r)
         (paste_buffer r) (alerts r) (output r ++ [msg]) (prompt r).

Definition write_to_paste_buffer (r : Repl) (txt : string) : Repl :=
  mkRepl (heap r) (manager r) (ctf_targets r) (ctf_submit r) (submitted r)
         (paste_buffer r ++ [txt]) (alerts r) (output r) (prompt r).

Definition record_submit (r : Repl) (c : Challenge) (flag : string) : Repl :=
  mkRepl (heap r) (manager r) (ctf_targets r) (ctf_submit r)
         (submitted r ++ [(c, flag)])
         (paste_buffer r) (alerts r) (output r) (prompt r).

(** Modelled from the spec: [Manager.queue_target] ([katana.manager] is
    not among the source files); the shell hands over a source and the
    engine takes it from there, so the call is recorded with its argument. *)
Definition queue_target (r : Repl) (path : string) : Repl :=
  let m := manager r in
  set_manager r (mkManager (config m) (m_targets m) (n_waiting m) (threads m)
                           (work_qsize m) (queued m ++ [path]) (flags m)).

(** ** [MonitoringEventHandler] *)

(** The event classes of [watchdog.events]. *)
Inductive EventClass :=
  | FileCreatedEvent | DirCreatedEvent
  | FileModifiedEvent | DirModifiedEvent
  | FileDeletedEvent | DirDeletedEvent
  | FileMovedEvent | DirMovedEvent.

Inductive EventType := EVENT_TYPE_CREATED | EVENT_TYPE_MODIFIED
                     | EVENT_TYPE_DELETED | EVENT_TYPE_MOVED.

Record FileSystemEvent := mkEvent {
  ev_class : EventClass;
  src_path : string
}.

Definition event_type (c : EventClass) : EventType :=
  match c with
  | FileCreatedEvent | DirCreatedEvent => EVENT_TYPE_CREATED
  | FileModifiedEvent | DirModifiedEvent => EVENT_TYPE_MODIFIED
  | FileDeletedEvent | DirDeletedEvent => EVENT_TYPE_DELETED
  | FileMovedEvent | DirMovedEvent => EVENT_TYPE_MOVED
  end.

(** [isinstance(event, FileCreatedEvent)]: the class has no subclass. *)
Definition is_FileCreatedEvent (e : FileSystemEvent) : bool :=
  match ev_class e with
  | FileCreatedEvent => true
  | _ => false
  end.

Definition queued_alert (path : string) : string :=
  "[" +:+ Fore.GREEN +:+ "!" +:+ Style.RESET_ALL +:+ "] "
  +:+ "new target queued: " +:+ path.

Definition on_created (r : Repl) (event : FileSystemEvent) : Repl :=
  if negb (is_FileCreatedEvent event) then r
  else
    let r := queue_target r (src_path event) in
    async_alert r (queued_alert (src_path event)).

(** [FileSystemEventHandler.dispatch] of watchdog: the event goes to the
    method of its type; the handler overrides [on_created] only, the
    inherited methods do nothing. *)
Definition dispatch (r : Repl) (event : FileSystemEvent) : Repl :=
  match event_type (ev_class event) with
  | EVENT_TYPE_CREATED => on_created r event
  | EVENT_TYPE_MODIFIED | EVENT_TYPE_DELETED | EVENT_TYPE_MOVED => r
  end.

(** ** [ReplMonitor.on_flag] *)

(** Modelled from the spec: [Monitor.on_flag] of [katana.monitor], which
    is not among the source files; it records the pair [(unit, flag)] in
    the append-only list [flags] the shell reads back as pairs. *)
Definition Monitor_on_flag (r : Repl) (unit : unit_ref) (flag : string) : Repl :=
  let m := manager r in
  set_manager r (mkManager (config m) (m_targets m) (n_waiting m) (threads m)
                           (work_qsize m) (queued m) (flags m ++ [(unit, flag)])).

(** The first line of the alert of [on_flag]. *)
Definition flag_head (e : string * string) : string :=
  Fore.MAGENTA +:+ e.1 +:+ Style.RESET_ALL +:+ "("
  +:+ Fore.RED +:+ e.2 +:+ Style.RESET_ALL +:+ ") - "
  +:+ Fore.GREEN +:+ "completed" +:+ Style.RESET_ALL +:+ "!" +:+ nl.

(** Truth value of a configuration string. *)
Definition truthy (s : string) : bool := negb (String.eqb s "").

(** ["ctf" in manager and "auto-submit" in manager["ctf"] and manager["ctf"]["auto-submit"]] *)
Definition auto_submit (m : Manager) : bool :=
  match config m !! "ctf" with
  | Some section =>
      match section !! "auto-submit" with
      | Some v => truthy v
      | None => false
      end
  | None => false
  end.

Definition ctf_verdict (result : bool) (c : Challenge) : string :=
  if result then
    nl +:+ nl +:+ "[" +:+ Fore.GREEN +:+ "+" +:+ Style.RESET_ALL +:+ "] ctf: "
    +:+ Fore.GREEN +:+ "correct" +:+ Style.RESET_ALL
    +:+ " flag for challenge " +:+ c_title c +:+ nl
  else
    nl +:+ nl +:+ "[" +:+ Fore.RED +:+ "-" +:+ Style.RESET_ALL +:+ "] ctf: "
    +:+ Fore.RED +:+ "incorrect" +:+ Style.RESET_ALL
    +:+ " flag for challenge " +:+ c_title c +:+ nl.

(** [bool(result)] for the tuple that [submit] returns: a tuple that is not
    empty is true, whatever it holds. *)
Definition tuple_truth {A B : Type} (result : A * B) : bool := true.

(** The block under [if "ctf" in self.repl.manager and ...]; [if result:]
    tests the tuple itself. *)
Definition submit_flag (r : Repl) (unit : unit_ref) (flag log_entry : string)
    : option (Repl * string) :=
  if auto_submit (manager r) then
    U ← units (heap r) !! unit;
    O ← targets (heap r) !! u_origin U;
    let u := if t_is_url O then last_segment (t_uri O) else t_hexdigest O in
    match ctf_targets r !! u with
    | Some (c, _) =>
        let result := ctf_submit r c flag in
        Some (record_submit r c flag,
              log_entry +:+ ctf_verdict (tuple_truth result) c)
    | None => Some (r, log_entry)
    end
  else Some (r, log_entry).

Definition on_flag (fuel : nat) (r : Repl) (unit : unit_ref) (flag : string)
    : option Repl :=
  if (0 <? length (filter (λ f, f.2 = flag) (flags (manager r))))%nat then Some r
  else
    let r := Monitor_on_flag r unit flag in
    chain ← build_chain (heap r) fuel unit;
    first ← chain !! 0;
    e0 ← entry_of (heap r) first;
    log_entry ← print_chain (heap r) chain (seq 1 (length chain - 1)) (flag_head e0);
    let log_entry := log_entry +:+ flag_line (length chain) flag in
    '(r, log_entry) ← submit_flag r unit flag log_entry;
    let r := write_to_paste_buffer r flag in
    Some (async_alert r log_entry).

(** ** [Repl.update_prompt] *)

Definition waiting : string := Fore.YELLOW +:+ "waiting" +:+ Style.RESET_ALL.
Definition running : string := Fore.GREEN +:+ "running" +:+ Style.RESET_ALL.

(** The local [state] of [update_prompt]. *)
Definition prompt_state (m : Manager) : string :=
  if (n_waiting m =? length (threads m))%nat then waiting else running.

Definition update_prompt (r : Repl) : Repl :=
  let state := prompt_state (manager r) in
  set_prompt r
    (Fore.CYAN +:+ "katana" +:+ Style.RESET_ALL +:+ " - " +:+ state +:+ " - "
     +:+ Fore.BLUE +:+ str_of_nat (work_qsize (manager r)) +:+ " units queued"
     +:+ Style.RESET_ALL +:+ " "
     +:+ nl +:+ Fore.GREEN +:+ arrow +:+ " " +:+ Style.RESET_ALL).

(** ** [Repl._target_stop] *)

Definition complete (T : Target) : Target :=
  mkTarget (t_str T) (t_raw T) (t_is_printable T) (t_hexdigest T)
           (t_parent T) true (t_is_url T) (t_uri T).

Definition already_completed (target : string) : string :=
  "[" +:+ Fore.YELLOW +:+ "!" +:+ Style.RESET_ALL +:+ "] " +:+ target
  +:+ ": already completed".

(** The body of the inner loop, for one [other] of [manager.targets]. *)
Definition stop_other (target : string) (r : Repl) (other : target_ref)
    : option Repl :=
  T ← targets (heap r) !! other;
  if String.eqb (t_hexdigest T) target then
    if t_completed T then Some (poutput r (already_completed target))
    else
      Some (set_heap r (mkHeap (units (heap r))
                               (<[other := complete T]> (targets (heap r)))))
  else Some r.

(** [for other in self.manager.targets: ...] *)
Fixpoint stop_scan (target : string) (r : Repl) (others : list target_ref)
    : option Repl :=
  match others with
  | [] => Some r
  | other :: rest => r' ← stop_other target r other; stop_scan target r' rest
  end.

(** [for target in args.target: ...] *)
Fixpoint _target_stop (r : Repl) (args_target : list string) : option Repl :=
  match args_target with
  | [] => Some r
  | target :: rest =>
      r' ← stop_scan target r (m_targets (manager r));
      _target_stop r' rest
  end.

(** ** The base85 unit, [katana/units/raw/base85_decode.py] *)

Module Base85.

(** The exception classes the unit names or can meet.  [UnicodeDecodeError]
    and [binascii.Error] are subclasses of [ValueError]. *)
Inductive Exception :=
  | UnicodeDecodeError
  | binascii_Error
  | ValueError
  | TypeError
  | OSError
  | NotApplicable (msg : string).

(** Whether [except (UnicodeDecodeError, binascii.Error, ValueError)] catches. *)
Definition caught (e : Exception) : bool :=
  match e with
  | UnicodeDecodeError | binascii_Error | ValueError => true
  | TypeError | OSError | NotApplicable _ => false
  end.

Inductive Outcome (A : Type) :=
  | Returned (a : A)
  | Raised (e : Exception).
Arguments Returned {A} a.
Arguments Raised {A} e.

(** The unit object: [self.target] is all the unit reads of itself. *)
Record Self := mkSelf { self_target : Target }.

(** [katana.recurse] takes the decoded bytes or the name of an artifact. *)
Inductive RecurseArg :=
  | Data (data : list byte)
  | Filename (path : string).

(** What the unit does to the engine and to the handle, in order. *)
Inductive Call :=
  | Recurse (self : Self) (data : RecurseArg)
  | AddResults (self : Self) (data : list byte)
  | CreateArtifact (self : Self) (name mode : string) (create : bool)
                   (filename : string) (handle : nat)
  | HandleWrite (handle : nat) (data : list byte)
  | HandleClose (handle : nat).

Record World := mkWorld {
  calls : list Call;            (* oldest first *)
  open_handles : list nat;      (* handles created and not closed *)
  next_handle : nat
}.

(** The collaborators of the unit that are not in this file. *)
Record Env := mkEnv {
  b85decode : list byte -> Outcome (list byte);   (* base64.b85decode *)
  isprintable : list byte -> bool;                (* katana.utilities.isprintable *)
  magic_from_buffer : list byte -> string;        (* magic.from_buffer *)
  is_good_magic : string -> bool;                 (* katana.utilities.is_good_magic *)
  artifact_path : nat -> string -> string;        (* the path of the n-th artifact *)
  write_error : nat -> list byte -> option Exception; (* what handle.write raises, if it does *)
  close_error : nat -> option Exception           (* what handle.close raises, if it does *)
}.

(** Computations that change the world and return or raise. *)
Definition M (A : Type) : Type := World -> World * Outcome A.

#[export] Instance M_ret : MRet M := λ A a w, (w, Returned a).
#[export] Instance M_bind : MBind M := λ A B f m w,
  match m w with
  | (w', Returned a) => f a w'
  | (w', Raised e) => (w', Raised e)
  end.

Definition raise {A} (e : Exception) : M A := λ w, (w, Raised e).

Definition lift {A} (o : Outcome A) : M A := λ w, (w, o).

(** [try: body except classes: handler] *)
Definition try_except {A} (body : M A) (handler : Exception -> M A) : M A :=
  λ w, match body w with
       | (w', Returned a) => (w', Returned a)
       | (w', Raised e) => handler e w'
       end.

Definition log (c : Call) (w : World) : World :=
  mkWorld (calls w ++ [c]) (open_handles w) (next_handle w).

(** Modelled from the spec: [Manager.recurse] ([katana.manager] is not
    among the source files); the engine takes the derived content and
    returns. *)
Definition katana_recurse (self : Self) (data : RecurseArg) : M () :=
  λ w, (log (Recurse self data) w, Returned ()).

(** Modelled from the spec: [Manager.add_results], which forwards the
    result to the observer and returns. *)
Definition katana_add_results (self : Self) (data : list byte) : M () :=
  λ w, (log (AddResults self data) w, Returned ()).

(** Modelled from the spec: [Manager.create_artifact], which returns the
    path of a new artifact and a writable handle on it, open. *)
Definition katana_create_artifact (env : Env) (self : Self) (name mode : string)
    (create : bool) : M (string * nat) :=
  λ w,
    let handle := next_handle w in
    let filename := artifact_path env handle name in
    (mkWorld (calls w ++ [CreateArtifact self name mode create filename handle])
             (open_handles w ++ [handle]) (S handle),
     Returned (filename, handle)).

(** [handle.write(data)]: the call is made; it returns or raises. *)
Definition handle_write (env : Env) (handle : nat) (data : list byte) : M () :=
  λ w,
    match write_error env handle data with
    | Some e => (log (HandleWrite handle data) w, Raised e)
    | None => (log (HandleWrite handle data) w, Returned ())
    end.

(** [handle.close()]: what is buffered is flushed, which can raise as a
    write can; the file is released either way. *)
Definition handle_close (env : Env) (handle : nat) : M () :=
  λ w,
    let w' := mkWorld (calls w ++ [HandleClose handle])
                      (filter (λ h, h ≠ handle) (open_handles w))
                      (next_handle w) in
    match close_error env handle with
    | Some e => (w', Raised e)
    | None => (w', Returned ())
    end.

(** Modelled from the spec: [BaseUnit.__init__] ([katana.unit] is not
    among the source files); it binds the unit to its target, which the
    subclass reads back as [self.target] on the next line. *)
Definition BaseUnit__init__ (target : Target) : M Self :=
  mret (mkSelf target).

(** [Unit.__init__] *)
Definition __init__ (target : Target) : M Self :=
  self ← BaseUnit__init__ target;
  if negb (t_is_printable (self_target self)) then
    raise (NotApplicable "not printable data")
  else mret self.

(** [Unit.evaluate] *)
Definition evaluate (env : Env) (self : Self) : M () :=
  try_except
    (result ← lift (b85decode env (t_raw (self_target self)));
     if isprintable env result then
       katana_recurse self (Data result);;
       katana_add_results self result
     else
       let magic_info := magic_from_buffer env result in
       if is_good_magic env magic_info then
         katana_add_results self result;;
         '(filename, handle) ← katana_create_artifact env self "decoded" "wb" true;
         handle_write env handle result;;
         handle_close env handle;;
         katana_recurse self (Filename filename)
       else mret ())
    (λ e, if caught e then mret () else raise e).

Definition empty_world : World := mkWorld [] [] 0.

End Base85.

(** ** A concrete environment

    [base64.b85decode] of the Python library and [utilities.isprintable],
    to run the unit on actual bytes. *)

Module PyLib.
Import Base85.

Definition _b85alphabet : list byte :=
  list_byte_of_string
    "0123456789ABCDEFGHIJKLMNOPQRSTUVWXYZabcdefghijklmnopqrstuvwxyz!#$%&()*+-;<=>?@^_`{|}~".

Fixpoint index_from (i : N) (c : byte) (l : list byte) : option N :=
  match l with
  | [] => None
  | x :: rest => if Byte.eqb x c then Some i else index_from (N.succ i) c rest
  end.

(** [_b85dec[c]]: the digit of a character, [None] outside the alphabet. *)
Definition _b85dec (c : byte) : option N := index_from 0%N c _b85alphabet.

(** [for c in chunk: acc = acc * 85 + _b85dec[c]]; a character outside the
    alphabet ends in [ValueError]. *)
Fixpoint chunk_acc (acc : N) (chunk : list byte) : Outcome N :=
  match chunk with
  | [] => Returned acc
  | c :: rest =>
      match _b85dec c with
      | Some d => chunk_acc (acc * 85 + d)%N rest
      | None => Raised ValueError
      end
  end.

(** [struct.Struct('!I').pack(acc)]: four bytes, big-endian; a value that
    does not fit is the overflow [ValueError]. *)
Definition packI (acc : N) : Outcome (list byte) :=
  if (acc <? 2 ^ 32)%N then
    Returned (map (λ k, default x00 (Byte.of_N ((acc / 2 ^ (8 * k)) mod 256)%N))
                  [3; 2; 1; 0]%N)
  else Raised ValueError.

(** The loop over the chunks of five characters of the padded input. *)
Fixpoint decode_chunks (b : list byte) (out : list byte) : Outcome (list byte) :=
  match b with
  | c1 :: c2 :: c3 :: c4 :: c5 :: rest =>
      match chunk_acc 0%N [c1; c2; c3; c4; c5] with
      | Returned acc =>
          match packI acc with
          | Returned four => decode_chunks rest (out ++ four)
          | Raised e => Raised e
          end
      | Raised e => Raised e
      end
  | _ => Returned out
  end.

Definition b85decode (b : list byte) : Outcome (list byte) :=
  let padding := ((5 - length b mod 5) mod 5)%nat in
  let b := (b ++ replicate padding "~"%byte)%list in
  match decode_chunks b [] with
  | Returned result => Returned (take (length result - padding)%nat result)
  | Raised e => Raised e
  end.

(** [string.printable] as bytes: the graphic ASCII characters, the space
    and the five control characters tab, newline, vertical tab, form feed
    and carriage return. *)
Definition printable_byte (c : byte) : bool :=
  let n := Byte.to_N c in
  ((32 <=? n) && (n <=? 126) || (9 <=? n) && (n <=? 13))%N.

Definition isprintable (data : list byte) : bool := forallb printable_byte data.

(** A stand-in for libmagic that knows one rule: the eight bytes of the
    PNG signature followed by the header of the [IHDR] chunk, as in the
    magic file; the signature alone is [data]. *)
Definition png_magic : list byte :=
  [x89; x50; x4e; x47; x0d; x0a; x1a; x0a;
   x00; x00; x00; x0d; x49; x48; x44; x52].

Fixpoint starts_with (prefix data : list byte) : bool :=
  match prefix, data with
  | [], _ => true
  | p :: prefix', d :: data' => Byte.eqb p d && starts_with prefix' data'
  | _ :: _, [] => false
  end.

Definition magic_from_buffer (data : list byte) : string :=
  if starts_with png_magic data then "PNG image data" else "data".

(** A stand-in for [utilities.is_good_magic]: images are of interest. *)
Definition is_good_magic (magic_info : string) : bool :=
  String.eqb magic_info "PNG image data".

(** A whole PNG file: one grey pixel, 67 bytes. *)
Definition tiny_png : list byte :=
  map (λ n, default x00 (Byte.of_nat n))
      [137; 80; 78; 71; 13; 10; 26; 10;
       0; 0; 0; 13; 73; 72; 68; 82; 0; 0; 0; 1; 0; 0; 0; 1; 8; 0; 0; 0; 0;
       58; 126; 155; 85;
       0; 0; 0; 10; 73; 68; 65; 84; 120; 156; 99; 96; 0; 0; 0; 2; 0; 1;
       72; 175; 164; 113;
       0; 0; 0; 0; 73; 69; 78; 68; 174; 66; 96; 130].

(** [base64.b85encode] of [tiny_png]. *)
Definition tiny_png_b85 : string :=
  "iBL{Q4GJ0x0000DNk~Le00001000012mk;806Kn~RR9103Q0skRCt_YU;qFB0ssL>ucUDR0000<MNUMnLSTX".

Definition artifact_path (n : nat) (name : string) : string :=
  "results/" +:+ name +:+ "-" +:+ str_of_nat n.

(** The environment in which every write and every close succeeds. *)
Definition env : Env :=
  mkEnv b85decode isprintable magic_from_buffer is_good_magic artifact_path
        (λ _ _, None) (λ _, None).

(** The same with a device that is full and a handle that does not buffer:
    every write raises [OSError]. *)
Definition env_disk_full : Env :=
  mkEnv b85decode isprintable magic_from_buffer is_good_magic artifact_path
        (λ _ _, Some OSError) (λ _, Some OSError).

(** A full device behind a buffered handle: the write returns, and the
    flush of [close] raises [OSError]. *)
Definition env_disk_full_buffered : Env :=
  mkEnv b85decode isprintable magic_from_buffer is_good_magic artifact_path
        (λ _ _, None) (λ _, Some OSError).

(** A target made of inline bytes, as [Target] computes its attributes. *)
Definition inline_target (raw : string) : Target :=
  mkTarget raw (list_byte_of_string raw) (isprintable (list_byte_of_string raw))
           "" None false false "".

End PyLib.

(** ** More of the shell *)

(** *** [get_target_choices]

    The completion items for the [target] commands: the digest of each
    root target, with a description.  [describe] stands for
    [katana.util.ellipsize(repr(t), 40)], which is outside the two files. *)
Definition get_target_choices (describe : Target -> string) (r : Repl)
    (uncomplete : bool) : option (list (string * string)) :=
  all ← mapM (λ t, targets (heap r) !! t) (m_targets (manager r));
  let targets := filter (λ T, t_parent T = None) all in
  let targets :=
    if uncomplete then filter (λ T, t_completed T = false) targets
    else targets in
  Some (map (λ T, (t_hexdigest T, describe T)) targets).

(** *** [Repl._target_add] *)

Definition queuing_line (target : string) : string :=
  "[" +:+ Fore.GREEN +:+ "+" +:+ Style.RESET_ALL +:+ "] " +:+ target
  +:+ ": queuing target".

Fixpoint _target_add (r : Repl) (args_target : list string) : Repl :=
  match args_target with
  | [] => r
  | target :: rest =>
      let r := poutput r (queuing_line target) in
      let r := queue_target r target in
      _target_add r rest
  end.

(** *** [Repl._target_solution] *)

(** [f[0].origin.hash.hexdigest()] and [str(f[0].origin)]. *)
Definition origin_digest (h : Heap) (u : unit_ref) : option string :=
  U ← units h !! u; O ← targets h !! u_origin U; Some (t_hexdigest O).

Definition origin_str (h : Heap) (u : unit_ref) : option string :=
  U ← units h !! u; O ← targets h !! u_origin U; Some (t_str O).

(** [[f for f in self.manager.monitor.flags
         if f[0].origin.hash.hexdigest() == args.target]] *)
Fixpoint flags_of_target (h : Heap) (target : string)
    (fl : list (unit_ref * string)) : option (list (unit_ref * string)) :=
  match fl with
  | [] => Some []
  | f :: rest =>
      d ← origin_digest h f.1;
      matching ← flags_of_target h target rest;
      Some (if String.eqb d target then f :: matching else matching)
  end.

Definition no_flags_found (target : string) : string :=
  "[" +:+ Fore.RED +:+ "-" +:+ Style.RESET_ALL +:+ "] " +:+ target
  +:+ ": no flags found".

Definition selecting (target origin : string) : string :=
  "[" +:+ Fore.YELLOW +:+ "!" +:+ Style.RESET_ALL +:+ "] " +:+ target
  +:+ ": selecting " +:+ Fore.RED +:+ origin +:+ Style.RESET_ALL.

(** The result is the shell afterwards and the lines sent to [perror]. *)
Definition _target_solution (fuel : nat) (r : Repl) (target : string)
    : option (Repl * list string) :=
  flags ← flags_of_target (heap r) target (flags (manager r));
  match flags with
  | [] => Some (r, [no_flags_found target])
  | flag :: _ =>
      r ← (if (1 <? length flags)
           then o ← origin_str (heap r) flag.1;
                Some (poutput r (selecting target o))
           else Some r);
      log_entry ← generate_solution (heap r) fuel flag;
      Some (poutput r log_entry, [])
  end.

(** *** The callbacks in a row *)

(** The flags the monitor is told of, one call of [on_flag] after the
    other. *)
Fixpoint on_flags (fuel : nat) (r : Repl) (reports : list (unit_ref * string))
    : option Repl :=
  match reports with
  | [] => Some r
  | report :: rest =>
      r' ← on_flag fuel r report.1 report.2;
      on_flags fuel r' rest
  end.

(** *** The parameter of [Repl.do_set]

    The first lines of [do_set] split [args.parameter] with [re.match]
    on a pattern of two groups: a group of any number of characters of the
    class [[a-zA-Z_\-0-9]], then an opening square bracket, then a second
    group of the same shape, then a closing square bracket.
    Neither class contains a bracket, so the greedy match is the only
    one: the longest run of class characters, an opening bracket, the
    longest run again, a closing bracket; what follows is not looked at. *)

Definition is_name_char (c : ascii) : bool :=
  let n := nat_of_ascii c in
  ((97 <=? n) && (n <=? 122) || (65 <=? n) && (n <=? 90)
   || (n =? 95) || (n =? 45) || (48 <=? n) && (n <=? 57))%nat.

(** The longest prefix in the class, and the rest. *)
Fixpoint span_name (s : string) : string * string :=
  match s with
  | EmptyString => ("", "")
  | String c rest =>
      if is_name_char c then
        let (name, rest') := span_name rest in (String c name, rest')
      else ("", s)
  end.

(** [re.match(pattern, parameter)], as the pair [(match[1], match[2])]. *)
Definition match_parameter (parameter : string) : option (string * string) :=
  let (section, rest) := span_name parameter in
  match rest with
  | String "["%char rest1 =>
      let (name, rest2) := span_name rest1 in
      match rest2 with
      | String "]"%char _ => Some (section, name)
      | _ => None
      end
  | _ => None
  end.

(** The [section] and [name] that [do_set] goes on with. *)
Definition set_parameter (parameter : string) : string * string :=
  match match_parameter parameter with
  | Some (section, name) => (section, name)
  | None => ("DEFAULT", parameter)
  end.

(** *** [Repl._ctf_bracket] *)

Record Bracket := mkBracket {
  b_name : string;
  b_ident : string     (* str(bracket.ident) *)
}.

(** [len(s)]: Python counts characters.  The strings of the model are
    UTF-8, where every byte of a character but its first is a continuation
    byte, of the form [10xxxxxx]; the characters are the other bytes. *)
Definition is_continuation_byte (c : ascii) : bool :=
  let n := nat_of_ascii c in ((128 <=? n) && (n <? 192))%nat.

Fixpoint py_len (s : string) : nat :=
  match s with
  | EmptyString => 0
  | String c rest =>
      if is_continuation_byte c then py_len rest else S (py_len rest)
  end.

(** [f"{s:<{width}}"]: spaces up to [width] characters. *)
Definition ljust (s : string) (width : nat) : string :=
  s +:+ spaces (width - py_len s).

Definition bracket_row (bracket_width : nat) (bracket : Bracket) : string :=
  " " +:+ ljust (b_name bracket) bracket_width +:+ b_ident bracket.

Definition bracket_header (bracket_width : nat) : string :=
  " " +:+ Style.BRIGHT +:+ ljust "Bracket" bracket_width +:+ "ID"
  +:+ Style.RESET_ALL.

(** The text handed to [ppaged], or [None] when the method returns
    without printing. *)
Definition _ctf_bracket (brackets : list Bracket) : option string :=
  if (length brackets =? 0)%nat then None
  else
    let bracket_width :=
      max_list (map (λ bracket, py_len (b_name bracket)) brackets) + 2 in
    let output :=
      [bracket_header bracket_width] ++ map (bracket_row bracket_width) brackets in
    Some (String.concat nl output).

(** *** [Repl.do_monitor] *)

Module Monitor.

(** [watchdog.observers.api.ObservedWatch] *)
Record ObservedWatch := mkWatch {
  w_path : string;
  is_recursive : bool
}.

(** What the shell asks of the observer. *)
Inductive ObserverCall :=
  | Schedule (watch : ObservedWatch)
  | Unschedule (watch : ObservedWatch).

(** The part of the shell [do_monitor] works on.  [directories] is a
    Python dictionary: the keys are unique and kept in insertion order. *)
Record Monitors := mkMonitors {
  directories : list (string * ObservedWatch);
  observer : list ObserverCall;       (* oldest first *)
  errors : list string;               (* perror *)
  printed : list string               (* poutput *)
}.

(** The file system as [os.path] shows it. *)
Record FS := mkFS {
  isdir : string -> bool;             (* os.path.isdir *)
  realpath : string -> string         (* os.path.realpath(os.path.abspath(p)) *)
}.

Inductive Args :=
  | ActionAdd (recursive : bool) (directory : list string)
  | ActionRemove (directory : list string)
  | ActionList.

(** How the command ends.  colorama's [Style] has [BRIGHT], [DIM],
    [NORMAL] and [RESET_ALL]; the messages written with [Style.RESET]
    raise [AttributeError] while the string is built, before [perror]. *)
Inductive Ended := ReturnedFalse | AttributeError.

(** [key in self.directories] and [self.directories[key]] *)
Fixpoint lookup_dir (key : string) (d : list (string * ObservedWatch))
    : option ObservedWatch :=
  match d with
  | [] => None
  | (k, w) :: rest => if String.eqb k key then Some w else lookup_dir key rest
  end.

(** [del self.directories[key]] *)
Fixpoint delete_dir (key : string) (d : list (string * ObservedWatch))
    : list (string * ObservedWatch) :=
  match d with
  | [] => []
  | (k, w) :: rest =>
      if String.eqb k key then delete_dir key rest
      else (k, w) :: delete_dir key rest
  end.

Definition already_monitored (dir : string) : string :=
  "[" +:+ Fore.RED +:+ "!" +:+ Style.RESET_ALL +:+ "] " +:+ dir
  +:+ ": already monitored".

(** [for dir in args.directory: ...] of the action [add] *)
Fixpoint monitor_add (fs : FS) (recursive : bool) (m : Monitors)
    (directory : list string) : Monitors * Ended :=
  match directory with
  | [] => (m, ReturnedFalse)
  | dir :: rest =>
      if negb (isdir fs dir) then (m, AttributeError)
      else
        let abs_dir := realpath fs dir in
        match lookup_dir abs_dir (directories m) with
        | Some _ =>
            monitor_add fs recursive
              (mkMonitors (directories m) (observer m)
                          (errors m ++ [already_monitored dir]) (printed m))
              rest
        | None =>
            let watch := mkWatch dir recursive in
            monitor_add fs recursive
              (mkMonitors (directories m ++ [(abs_dir, watch)])
                          (observer m ++ [Schedule watch])
                          (errors m) (printed m))
              rest
        end
  end.

(** [for dir in args.directory: ...] of the action [remove] *)
Fixpoint monitor_remove (fs : FS) (m : Monitors) (directory : list string)
    : Monitors * Ended :=
  match directory with
  | [] => (m, ReturnedFalse)
  | dir :: rest =>
      if negb (isdir fs dir) then (m, AttributeError)
      else
        let dir := realpath fs dir in
        match lookup_dir dir (directories m) with
        | None => (m, AttributeError)
        | Some handle =>
            monitor_remove fs
              (mkMonitors (delete_dir dir (directories m))
                          (observer m ++ [Unschedule handle])
                          (errors m) (printed m))
              rest
        end
  end.

Definition monitor_line (handle : ObservedWatch) : string :=
  if is_recursive handle then
    nl +:+ w_path handle +:+ " - " +:+ Fore.CYAN +:+ "recursive" +:+ Style.RESET_ALL
  else
    nl +:+ w_path handle +:+ " - " +:+ Fore.BLUE +:+ "non-recursive"
    +:+ Style.RESET_ALL.

(** [output[1:]] *)
Definition drop_first (s : string) : string :=
  match s with
  | EmptyString => ""
  | String _ rest => rest
  end.

Definition monitor_list (m : Monitors) : Monitors :=
  let output :=
    foldl (λ output entry, output +:+ monitor_line entry.2) "" (directories m) in
  mkMonitors (directories m) (observer m) (errors m)
             (printed m ++ [drop_first output]).

Definition do_monitor (fs : FS) (m : Monitors) (args : Args) : Monitors * Ended :=
  match args with
  | ActionAdd recursive directory => monitor_add fs recursive m directory
  | ActionRemove directory => monitor_remove fs m directory
  | ActionList => (monitor_list m, ReturnedFalse)
  end.

(** A session: the commands one after the other; a command that raises
    is reported by the shell and the next one is read. *)
Fixpoint session (fs : FS) (m : Monitors) (commands : list Args) : Monitors :=
  match commands with
  | [] => m
  | args :: rest => session fs (do_monitor fs m args).1 rest
  end.

Definition empty : Monitors := mkMonitors [] [] [] [].

#[export] Instance ObservedWatch_eq_dec : EqDecision ObservedWatch.
Proof. solve_decision. Defined.

(** The watches an observer holds after a log of calls: those scheduled
    and not unscheduled since. *)
Fixpoint remove_first (w : ObservedWatch) (l : list ObservedWatch)
    : list ObservedWatch :=
  match l with
  | [] => []
  | x :: rest => if decide (x = w) then rest else x :: remove_first w rest
  end.

Definition active (log : list ObserverCall) : list ObservedWatch :=
  foldl (λ held c,
           match c with
           | Schedule w => held ++ [w]
           | Unschedule w => remove_first w held
           end) [] log.

(** The table of the shell and the observer agree: the keys are distinct,
    each is the real path of the directory its watch was scheduled on, and
    the watches of the table are those the observer holds. *)
Definition consistent (fs : FS) (m : Monitors) : Prop :=
  NoDup (directories m).*1 /\
  Forall (λ entry, entry.1 = realpath fs (w_path entry.2)) (directories m) /\
  active (observer m) = (directories m).*2.

(** The paths under [/srv] are directories; [/srv/in/.] is [/srv/in]. *)
Definition fs0 : FS :=
  mkFS (λ p, String.prefix "/srv" p)
       (λ p, if String.eqb p "/srv/in/." then "/srv/in" else p).

End Monitor.

(** ** A concrete shell

    Three units in a row: the flag is found by [raw.strings] on a target
    that [raw.base85] produced out of what [raw.base64] decoded from the
    first target. *)

Module Example.

Definition root_target : Target :=
  mkTarget "challenge.txt" [] true "d41d8cd9" None false false "".
Definition target_A : Target :=
  mkTarget "W^7?+dv9xf" [] true "0cc175b9" (Some 0) false false "".
Definition target_B : Target :=
  mkTarget "flag{ok}" [] true "92eb5ffe" (Some 1) false false "".

Definition heap3 : Heap :=
  mkHeap (list_to_map [(0, mkUnit "raw.base64" 0 0);
                       (1, mkUnit "raw.base85" 1 0);
                       (2, mkUnit "raw.strings" 2 0)])
         (list_to_map [(0, root_target); (1, target_A); (2, target_B)]).

(** A store that Python allows and the engine never builds: two units,
    each on a target produced by the other. *)
Definition heap_cycle : Heap :=
  mkHeap (list_to_map [(0, mkUnit "raw.base64" 0 0);
                       (1, mkUnit "raw.base85" 1 0)])
         (list_to_map [(0, mkTarget "a" [] true "" (Some 1) false false "");
                       (1, mkTarget "b" [] true "" (Some 0) false false "")]).

Definition manager0 : Manager :=
  mkManager ∅ [0; 1; 2; 1] 2 [0; 1] 0 [] [].

Definition repl0 : Repl :=
  mkRepl heap3 manager0 ∅ (λ _ _, (false, "")) [] [] [] [] "".

End Example.

(** The same shell set up for a CTF: flags are submitted as they are
    found, the first target is the file [challenge.txt] of a challenge, and
    the provider takes [flag{ok}] only. *)
Module ExampleCtf.

Definition challenge : Challenge := mkChallenge "7" "Warmup".

Definition root_target : Target :=
  mkTarget "challenge.txt" [] true "d41d8cd9" None false true
           "https://ctf.example/files/challenge.txt".

Definition heap3 : Heap :=
  mkHeap (units Example.heap3)
         (list_to_map [(0, root_target); (1, Example.target_A);
                       (2, Example.target_B)]).

Definition manager0 : Manager :=
  mkManager {[ "ctf" := {[ "auto-submit" := "yes" ]} ]} [0; 1; 2] 2 [0; 1] 0 [] [].

Definition repl0 : Repl :=
  mkRepl heap3 manager0 {[ "challenge.txt" := (challenge, Some 0) ]}
         (λ _ flag, (String.eqb flag "flag{ok}", "")) [] [] [] [] "".

End ExampleCtf.

(** * Properties *)

(** ** The solution chain *)

(** The parent links above a unit, read upward: [ancestry h u path] holds
    when [path] starts at [u], each next element is the parent of the
    target of the one before, and the last one has a target without
    parent.  Such a path is finite, and the store has no cycle along it. *)
Inductive ancestry (h : Heap) : unit_ref -> list unit_ref -> Prop :=
  | ancestry_root u T :
      target_of h u = Some T -> t_parent T = None ->
      ancestry h u [u]
  | ancestry_step u T p path :
      target_of h u = Some T -> t_parent T = Some p ->
      ancestry h p path ->
      ancestry h u (u :: path).

(** The lines below the first one, for entries numbered from [n]. *)
Fixpoint chain_lines (n : nat) (es : list (string * string)) : string :=
  match es with
  | [] => ""
  | e :: es' => step_line n e +:+ chain_lines (S n) es'
  end.

(** A solution as the specification words it: the entries from the root
    down to the unit that found the flag, then the flag. *)
Definition solution_text (entries : list (string * string)) (flag : string)
    : string :=
  match entries with
  | [] => ""
  | e0 :: rest =>
      solution_head e0 +:+ chain_lines 1 rest
      +:+ flag_line (length entries) flag
  end.

(** How one stop command may change a target: not at all, or from not
    completed to completed when its digest is among the arguments. *)
Definition stopped_by (args : list string) (T T' : Target) : Prop :=
  T' = T \/ (t_completed T = false /\ t_hexdigest T ∈ args /\ T' = complete T).

(** The targets the manager lists are live objects. *)
Definition targets_live (r : Repl) : Prop :=
  forall t, t ∈ m_targets (manager r) -> is_Some (targets (heap r) !! t).

(** The alert of [on_flag] in the same words: the entries from the root
    down, the first marked completed, then the flag. *)
Definition flag_text (entries : list (string * string)) (flag : string)
    : string :=
  match entries with
  | [] => ""
  | e0 :: rest =>
      flag_head e0 +:+ chain_lines 1 rest
      +:+ flag_line (length entries) flag
  end.

(** What a run of stops keeps: the list of targets, and every target of
    the store up to [stopped_by]. *)
Definition stop_result (args : list string) (r r' : Repl) : Prop :=
  m_targets (manager r') = m_targets (manager r) /\
  forall t T, targets (heap r) !! t = Some T ->
    exists T', targets (heap r') !! t = Some T' /\ stopped_by args T T'.

(** In shell [r], the target behind [t] is completed if its digest is
    [target]. *)
Definition done_if (target : string) (r : Repl) (t : target_ref) : Prop :=
  forall T, targets (heap r) !! t = Some T ->
    t_hexdigest T = target -> t_completed T = true.



(** The trace of a solution written out: the entries below the first, one
    a line, each one column further in and followed by an arrow. *)
Fixpoint trace_steps (n : nat) (entries : list (string * string)) : string :=
  match entries with
  | [] => ""
  | e :: rest =>
      " " +:+ spaces n +:+ Fore.MAGENTA +:+ e.1 +:+ Style.RESET_ALL +:+ "("
      +:+ Fore.RED +:+ e.2 +:+ Style.RESET_ALL +:+ ") "
      +:+ Fore.YELLOW +:+ arrow +:+ " " +:+ Style.RESET_ALL +:+ nl
      +:+ trace_steps (S n) rest
  end.

(** The whole trace: the first entry, the entries below it, and a last line
    with the flag. *)
Definition trace_text (entries : list (string * string)) (flag : string)
    : string :=
  match entries with
  | [] => ""
  | e0 :: rest =>
      Fore.MAGENTA +:+ e0.1 +:+ Style.RESET_ALL +:+ "("
      +:+ Fore.RED +:+ e0.2 +:+ Style.RESET_ALL +:+ ")" +:+ nl
      +:+ trace_steps 1 rest
      +:+ " " +:+ spaces (length entries) +:+ Fore.GREEN +:+ Style.BRIGHT
      +:+ flag +:+ Style.RESET_ALL +:+ " - (copied)"
  end.

Section Chain.

Variable h : Heap.

Lemma string_app_assoc (a b c : string) : (a +:+ b) +:+ c = a +:+ (b +:+ c).
Proof.
  induction a as [|x a IH]; [reflexivity |].
  change (String x ((a +:+ b) +:+ c) = String x (a +:+ (b +:+ c))).
  by f_equal.
Qed.

Lemma chain_loop_ancestry u path :
  ancestry h u path ->
  forall fuel acc, length path <= fuel ->
    chain_loop h fuel (Some u) acc = Some (acc ++ path)%list.
Proof.
  induction 1 as [u T HT Hp | u T p path HT Hp Hanc IH]; intros fuel acc Hfuel.
  - destruct fuel as [|fuel]; [simpl in Hfuel; lia |].
    simpl. rewrite HT. simpl. rewrite Hp.
    destruct fuel; reflexivity.
  - destruct fuel as [|fuel]; [simpl in Hfuel; lia |].
    simpl in Hfuel. simpl. rewrite HT. simpl. rewrite Hp.
    rewrite IH by lia. by rewrite <- app_assoc.
Qed.

Lemma build_chain_ancestry u path fuel :
  ancestry h u path -> length path <= fuel ->
  build_chain h fuel u = Some (rev path).
Proof.
  intros Hanc Hfuel. unfold build_chain.
  by rewrite (chain_loop_ancestry u path Hanc fuel []).
Qed.

Lemma target_of_entry u T :
  target_of h u = Some T -> exists U, units h !! u = Some U /\
    entry_of h u = Some (u_str U, t_str T).
Proof.
  unfold target_of, entry_of. intros HT.
  destruct (units h !! u) as [U|] eqn:HU; simpl in *; [|discriminate].
  exists U. split; [reflexivity |]. by rewrite HT.
Qed.

Lemma ancestry_entries u path :
  ancestry h u path -> Forall (is_Some ∘ entry_of h) path.
Proof.
  induction 1 as [u T HT Hp | u T p path HT Hp Hanc IH].
  - destruct (target_of_entry u T HT) as (U & _ & HE).
    constructor; [|constructor]. simpl. by rewrite HE.
  - destruct (target_of_entry u T HT) as (U & _ & HE).
    constructor; [|exact IH]. simpl. by rewrite HE.
Qed.

(** The loop over the indices prints the lines of the entries, in order. *)
Lemma print_chain_lines mid :
  forall pre es log_entry,
    Forall2 (λ x y, entry_of h x = Some y) mid es ->
    print_chain h (pre ++ mid) (seq (length pre) (length mid)) log_entry
    = Some (log_entry +:+ chain_lines (length pre) es).
Proof.
  induction mid as [|x mid IH]; intros pre es log_entry Hes.
  - apply Forall2_nil_inv_l in Hes as ->. simpl.
    f_equal. clear. induction log_entry as [|x s IH]; [reflexivity |].
    change (String x s = String x (s +:+ "")). by f_equal.
  - apply Forall2_cons_inv_l in Hes as (e & es' & He & Hes' & ->).
    simpl. rewrite list_lookup_middle by reflexivity. simpl.
    rewrite He. simpl.
    specialize (IH (pre ++ [x])%list es' (log_entry +:+ step_line (length pre) e) Hes').
    rewrite <- app_assoc in IH. simpl in IH.
    rewrite length_app in IH. simpl in IH.
    replace (length pre + 1) with (S (length pre)) in IH by lia.
    rewrite IH. by rewrite string_app_assoc.
Qed.

Lemma print_chain_below_head first others rest head :
  Forall2 (λ x y, entry_of h x = Some y) others rest ->
  print_chain h (first :: others) (seq 1 (length (first :: others) - 1)) head
  = Some (head +:+ chain_lines 1 rest).
Proof.
  intros Hrest. simpl. rewrite Nat.sub_0_r.
  exact (print_chain_lines others [first] rest head Hrest).
Qed.

Lemma generate_solution_entries chain e0 rest first others flag fuel u :
  build_chain h fuel u = Some chain ->
  chain = first :: others ->
  entry_of h first = Some e0 ->
  Forall2 (λ x y, entry_of h x = Some y) others rest ->
  generate_solution h fuel (u, flag) = Some (solution_text (e0 :: rest) flag).
Proof.
  intros Hchain -> He0 Hrest. unfold generate_solution.
  cbn [fst snd]. rewrite Hchain. cbn [mbind option_bind lookup list_lookup].
  rewrite He0. cbn [mbind option_bind].
  rewrite (print_chain_below_head first others rest _ Hrest).
  cbn [mbind option_bind solution_text length].
  rewrite (Forall2_length _ _ _ Hrest).
  by rewrite string_app_assoc.
Qed.

(** On a cycle of parents the loop does not end: no fuel is enough. *)
Lemma chain_loop_cycle (fuel : nat) :
  forall u acc, u = 0 \/ u = 1 ->
    chain_loop Example.heap_cycle fuel (Some u) acc = None.
Proof.
  induction fuel as [|fuel IH]; intros u acc Hu; [reflexivity |].
  destruct Hu as [-> | ->].
  - change (chain_loop Example.heap_cycle fuel (Some 1) (acc ++ [0]) = None).
    apply IH. by right.
  - change (chain_loop Example.heap_cycle fuel (Some 0) (acc ++ [1]) = None).
    apply IH. by left.
Qed.

(** The entries of a path, root first, all exist. *)
Lemma ancestry_rev_entries u path :
  ancestry h u path ->
  exists first others e0 rest,
    rev path = first :: others /\
    entry_of h first = Some e0 /\
    Forall2 (λ x y, entry_of h x = Some y) others rest /\
    mapM (entry_of h) (rev path) = Some (e0 :: rest) /\
    length (e0 :: rest) = length path.
Proof.
  intros Hanc.
  pose proof (ancestry_entries u path Hanc) as Hall.
  apply Forall_rev in Hall.
  apply mapM_is_Some_2 in Hall as [entries Hentries].
  pose proof (mapM_Some_1 _ _ _ Hentries) as Hf2.
  pose proof (Forall2_length _ _ _ Hf2) as Hlen.
  rewrite length_rev in Hlen.
  destruct (rev path) as [|first others] eqn:Hrev.
  - apply (f_equal (@length _)) in Hrev. rewrite length_rev in Hrev.
    destruct Hanc; simpl in Hrev; lia.
  - apply Forall2_cons_inv_l in Hf2 as (e0 & rest & He0 & Hrest & ->).
    exists first, others, e0, rest. repeat split; try done.
Qed.




Lemma chain_lines_trace (es : list (string * string)) :
  forall n, chain_lines n es = trace_steps n es.
Proof.
  induction es as [|e es IH]; intros n; [reflexivity |].
  cbn [chain_lines trace_steps]. unfold step_line.
  rewrite !string_app_assoc, IH. reflexivity.
Qed.

Lemma solution_text_trace (entries : list (string * string)) (flag : string) :
  solution_text entries flag = trace_text entries flag.
Proof.
  destruct entries as [|e0 rest]; [reflexivity |].
  unfold solution_text, trace_text, solution_head, flag_line.
  rewrite !string_app_assoc, chain_lines_trace. reflexivity.
Qed.






End Chain.



(** C8. A flag found by a unit on a target without parent: the chain is
    that unit alone, and the text is its entry, unit and target, on one
    line and the flag on the next; the missing parent ends the loop, it
    does not fail. *)
Theorem generate_solution_root (h : Heap) (u : unit_ref) (U : Unit)
    (T : Target) (flag : string) (fuel : nat) :
  units h !! u = Some U -> targets h !! u_target U = Some T ->
  t_parent T = None -> 1 <= fuel ->
  build_chain h fuel u = Some [u] /\
  generate_solution h fuel (u, flag)
  = Some (Fore.MAGENTA +:+ u_str U +:+ Style.RESET_ALL +:+ "("
          +:+ Fore.RED +:+ t_str T +:+ Style.RESET_ALL +:+ ")" +:+ nl
          +:+ "  " +:+ Fore.GREEN +:+ Style.BRIGHT +:+ flag +:+ Style.RESET_ALL
          +:+ " - (copied)").
Proof.
  intros HU HT Hp Hfuel.
  assert (Htarget : target_of h u = Some T).
  { unfold target_of. rewrite HU. exact HT. }
  assert (Hanc : ancestry h u [u]) by (eapply ancestry_root; eassumption).
  pose proof (build_chain_ancestry h u [u] fuel Hanc Hfuel) as Hchain.
  split; [exact Hchain |].
  rewrite (generate_solution_entries h [u] (u_str U, t_str T) [] u [] flag fuel u
             Hchain eq_refl).
  - f_equal. rewrite solution_text_trace. unfold trace_text.
    cbn [trace_steps length fst snd].
    change (spaces 1) with " ".
    change ("" +:+ " " +:+ " " +:+ Fore.GREEN +:+ Style.BRIGHT +:+ flag
            +:+ Style.RESET_ALL +:+ " - (copied)")
      with ("  " +:+ Fore.GREEN +:+ Style.BRIGHT +:+ flag
            +:+ Style.RESET_ALL +:+ " - (copied)").
    reflexivity.
  - unfold entry_of. rewrite HU. simpl. by rewrite HT.
  - constructor.
Qed.

Lemma generate_solution_root_example :
  build_chain Example.heap3 1 0 = Some [0] /\
  generate_solution Example.heap3 1 (0, "flag{ok}")
  = Some (Fore.MAGENTA +:+ "raw.base64" +:+ Style.RESET_ALL +:+ "("
          +:+ Fore.RED +:+ "challenge.txt" +:+ Style.RESET_ALL +:+ ")" +:+ nl
          +:+ "  " +:+ Fore.GREEN +:+ Style.BRIGHT +:+ "flag{ok}" +:+ Style.RESET_ALL
          +:+ " - (copied)").
Proof.
  apply (generate_solution_root Example.heap3 0 (mkUnit "raw.base64" 0 0)
           Example.root_target "flag{ok}" 1);
    [reflexivity | reflexivity | reflexivity | lia].
Defined.

(** ** Flags are reported once *)

Section Flags.

Lemma duplicate_guard (r : Repl) (unit' : unit_ref) (flag : string) :
  (unit', flag) ∈ flags (manager r) ->
  (0 <? length (filter (λ f, f.2 = flag) (flags (manager r)))) = true.
Proof.
  intros Hin. apply Nat.ltb_lt.
  assert (Hf : (unit', flag) ∈ filter (λ f, f.2 = flag) (flags (manager r))).
  { apply list_elem_of_filter. split; [reflexivity | exact Hin]. }
  destruct (filter _ _); [by apply not_elem_of_nil in Hf | simpl; lia].
Qed.

Lemma submit_flag_keeps (r r' : Repl) (unit : unit_ref) (flag log_entry msg : string) :
  submit_flag r unit flag log_entry = Some (r', msg) ->
  manager r' = manager r /\ heap r' = heap r /\
  paste_buffer r' = paste_buffer r /\ alerts r' = alerts r.
Proof.
  unfold submit_flag. intros H.
  destruct (auto_submit (manager r)); [| by inversion H].
  destruct (units (heap r) !! unit) as [U|]; simpl in H; [| discriminate].
  destruct (targets (heap r) !! u_origin U) as [O|]; simpl in H; [| discriminate].
  destruct (ctf_targets r !! _) as [[c o]|]; by inversion H.
Qed.

(** A flag whose value is not recorded yet, when [on_flag] returns: the
    pair is recorded, the value goes to the paste buffer and one alert is
    sent. *)
Lemma on_flag_fresh (fuel : nat) (r r' : Repl) (unit : unit_ref) (flag : string) :
  (0 <? length (filter (λ f, f.2 = flag) (flags (manager r)))) = false ->
  on_flag fuel r unit flag = Some r' ->
  flags (manager r') = flags (manager r) ++ [(unit, flag)] /\
  paste_buffer r' = paste_buffer r ++ [flag] /\
  exists msg, alerts r' = alerts r ++ [msg].
Proof.
  intros Hguard. unfold on_flag. rewrite Hguard. intros H.
  destruct (build_chain _ fuel unit) as [chain|]; simpl in H; [| discriminate].
  destruct (chain !! 0) as [first|]; simpl in H; [| discriminate].
  destruct (entry_of _ first) as [e0|]; simpl in H; [| discriminate].
  destruct (print_chain _ chain _ _) as [log_entry|]; simpl in H; [| discriminate].
  destruct (submit_flag _ unit flag _) as [[r1 msg]|] eqn:Hs; simpl in H;
    [| discriminate].
  apply submit_flag_keeps in Hs as (Hm & _ & Hp & Ha).
  inversion H; subst r'; clear H. simpl.
  rewrite Hm, Hp, Ha. simpl. eauto.
Qed.

(** X15. A flag whose value is new, found at the end of a finite chain, with
    automatic submission off: [on_flag] returns; the pair is recorded, the
    value pasted, and the alert is the chain from the root down. *)
Lemma on_flag_reports (fuel : nat) (r : Repl) (unit : unit_ref)
    (path : list unit_ref) (flag : string) :
  ancestry (heap r) unit path -> length path <= fuel ->
  (0 <? length (filter (λ f, f.2 = flag) (flags (manager r)))) = false ->
  auto_submit (manager r) = false ->
  exists entries,
    mapM (entry_of (heap r)) (rev path) = Some entries /\
    on_flag fuel r unit flag
    = Some (async_alert
              (write_to_paste_buffer (Monitor_on_flag r unit flag) flag)
              (flag_text entries flag)).
Proof.
  intros Hanc Hfuel Hguard Hauto.
  pose proof (build_chain_ancestry (heap r) unit path fuel Hanc Hfuel) as Hchain.
  destruct (ancestry_rev_entries (heap r) unit path Hanc)
    as (first & others & e0 & rest & Hrev & He0 & Hrest & Hentries & Hlen).
  exists (e0 :: rest). split; [exact Hentries |].
  unfold on_flag. rewrite Hguard.
  change (heap (Monitor_on_flag r unit flag)) with (heap r).
  rewrite Hchain, Hrev. cbn [mbind option_bind lookup list_lookup].
  rewrite He0. cbn [mbind option_bind].
  rewrite (print_chain_below_head (heap r) first others rest _ Hrest).
  cbn [mbind option_bind].
  unfold submit_flag.
  change (auto_submit (manager (Monitor_on_flag r unit flag)))
    with (auto_submit (manager r)).
  rewrite Hauto. cbn [mbind option_bind].
  do 2 f_equal. cbn [flag_text length].
  rewrite (Forall2_length _ _ _ Hrest).
  by rewrite string_app_assoc.
Qed.

End Flags.

(** C1. A flag whose value is already in the list of the monitor, under
    whatever unit: [on_flag] returns and the shell is as it was, so nothing
    is recorded, pasted or alerted.  And once a call of [on_flag] with a
    value has returned, the value is in the list, and every later call with
    that value, from any unit, changes nothing. *)
Theorem on_flag_duplicate_ignored (fuel : nat) (r : Repl) (unit : unit_ref)
    (flag : string) :
  (forall unit', (unit', flag) ∈ flags (manager r) ->
     on_flag fuel r unit flag = Some r) /\
  (forall r', on_flag fuel r unit flag = Some r' ->
     (exists unit0, (unit0, flag) ∈ flags (manager r')) /\
     forall fuel' unit', on_flag fuel' r' unit' flag = Some r').
Proof.
  assert (Hdup : forall fuel0 r0 unit0 unit',
            (unit', flag) ∈ flags (manager r0) ->
            on_flag fuel0 r0 unit0 flag = Some r0).
  { intros fuel0 r0 unit0 unit' Hin. unfold on_flag.
    by rewrite (duplicate_guard r0 unit' flag Hin). }
  split; [intros unit'; apply Hdup |].
  intros r' Hr'.
  assert (Hrec : exists unit0, (unit0, flag) ∈ flags (manager r')).
  { destruct (0 <? length (filter (λ f, f.2 = flag) (flags (manager r))))
      eqn:Hguard.
    - unfold on_flag in Hr'. rewrite Hguard in Hr'. inversion Hr'; subst r'.
      apply Nat.ltb_lt in Hguard.
      destruct (filter (λ f, f.2 = flag) (flags (manager r)))
        as [|[u0 v0] rest] eqn:Hf; [simpl in Hguard; lia |].
      assert (Hin : (u0, v0) ∈ filter (λ f, f.2 = flag) (flags (manager r))).
      { rewrite Hf. left. }
      apply list_elem_of_filter in Hin as [Hv Hin]. simpl in Hv. subst v0.
      by exists u0.
    - destruct (on_flag_fresh fuel r r' unit flag Hguard Hr') as (Hfl & _).
      exists unit. rewrite Hfl. apply elem_of_app. right. left. }
  split; [exact Hrec |].
  destruct Hrec as [unit0 Hin]. intros fuel' unit'. by eapply Hdup.
Qed.

(** In the example, [raw.strings] has reported [flag{ok}]; the same value
    from [raw.base64], by another chain, leaves the shell as it is. *)
Lemma on_flag_duplicate_example :
  let r := mkRepl Example.heap3
             (mkManager ∅ [0; 1; 2] 2 [0; 1] 0 [] [(2, "flag{ok}")])
             ∅ (λ _ _, (false, "")) [] ["flag{ok}"] ["found"] [] "" in
  on_flag 5 r 0 "flag{ok}" = Some r.
Proof.
  intros r.
  apply (proj1 (on_flag_duplicate_ignored 5 r 0 "flag{ok}") 2).
  subst r. simpl. left.
Defined.

(** ** The prompt *)

Lemma waiting_not_running : waiting <> running.
Proof. intros H. vm_compute in H. discriminate. Qed.

(** C3, as the specification states it, fails: with both workers on the
    barrier and three units in the queue the prompt says [waiting]. *)
Lemma prompt_waiting_with_queued_units :
  ~ (forall m : Manager,
       prompt_state m = waiting <->
       n_waiting m = length (threads m) /\ work_qsize m = 0).
Proof.
  intros H.
  destruct (H (mkManager ∅ [] 2 [0; 1] 3 [] [])) as [Hq _].
  destruct (Hq eq_refl) as [_ Hzero]. simpl in Hzero. discriminate.
Qed.

(** The local [state] of [update_prompt] follows the barrier alone. *)
Lemma prompt_state_waiting_iff (m : Manager) :
  (prompt_state m = waiting <-> n_waiting m = length (threads m)) /\
  (prompt_state m = running <-> n_waiting m <> length (threads m)) /\
  (forall q, prompt_state
               (mkManager (config m) (m_targets m) (n_waiting m) (threads m) q
                          (queued m) (flags m))
             = prompt_state m).
Proof.
  unfold prompt_state. simpl.
  pose proof waiting_not_running as Hwr.
  destruct (Nat.eqb_spec (n_waiting m) (length (threads m))) as [Heq | Hne];
    (split; [| split]); try reflexivity; split; intros H;
    try reflexivity; try assumption; try congruence.
Qed.

(** C3, amended. [update_prompt] sets the prompt, and nothing else, to a
    text that shows a state and then the size of the work queue, in
    decimal, before the words [units queued].  The state shown is
    [waiting] exactly when the number of workers waiting on the barrier is
    the number of threads, and [running] exactly when it is not; the size
    of the queue is printed beside it and does not enter it. *)
Theorem update_prompt_shows_state (r : Repl) :
  exists state,
    update_prompt r
    = mkRepl (heap r) (manager r) (ctf_targets r) (ctf_submit r) (submitted r)
             (paste_buffer r) (alerts r) (output r)
             (Fore.CYAN +:+ "katana" +:+ Style.RESET_ALL +:+ " - " +:+ state
              +:+ " - " +:+ Fore.BLUE
              +:+ NilZero.string_of_uint (Nat.to_uint (work_qsize (manager r)))
              +:+ " units queued" +:+ Style.RESET_ALL +:+ " " +:+ nl
              +:+ Fore.GREEN +:+ arrow +:+ " " +:+ Style.RESET_ALL) /\
    (state = Fore.YELLOW +:+ "waiting" +:+ Style.RESET_ALL
     <-> n_waiting (manager r) = length (threads (manager r))) /\
    (state = Fore.GREEN +:+ "running" +:+ Style.RESET_ALL
     <-> n_waiting (manager r) <> length (threads (manager r))).
Proof.
  exists (prompt_state (manager r)). split; [reflexivity |].
  unfold prompt_state.
  pose proof waiting_not_running as Hwr. unfold waiting, running in Hwr.
  destruct (Nat.eqb_spec (n_waiting (manager r)) (length (threads (manager r))))
    as [Heq | Hne]; unfold waiting, running; split; split; intros H;
    try reflexivity; try assumption; try congruence.
Qed.

(** ** Stopping targets *)

Section Stop.

Lemma stopped_by_trans (args : list string) (T1 T2 T3 : Target) :
  stopped_by args T1 T2 -> stopped_by args T2 T3 -> stopped_by args T1 T3.
Proof.
  intros [-> | (Hc & Hin & ->)] H23; [exact H23 |].
  destruct H23 as [-> | (Hc' & _)]; [by right | discriminate].
Qed.

Lemma stopped_by_more (a : string) (args : list string) (T T' : Target) :
  stopped_by args T T' -> stopped_by (a :: args) T T'.
Proof.
  intros [-> | (Hc & Hin & ->)]; [by left | right].
  repeat split; [exact Hc | by right].
Qed.

Lemma stop_result_refl (args : list string) (r : Repl) : stop_result args r r.
Proof. split; [reflexivity |]. intros t T HT. exists T. split; [exact HT | by left]. Qed.

Lemma stop_result_trans (args : list string) (r1 r2 r3 : Repl) :
  stop_result args r1 r2 -> stop_result args r2 r3 -> stop_result args r1 r3.
Proof.
  intros [Hm12 H12] [Hm23 H23]. split; [congruence |].
  intros t T HT. destruct (H12 t T HT) as (T2 & HT2 & Hs12).
  destruct (H23 t T2 HT2) as (T3 & HT3 & Hs23).
  exists T3. split; [exact HT3 | by eapply stopped_by_trans].
Qed.

Lemma stop_other_result (target : string) (r : Repl) (other : target_ref) :
  is_Some (targets (heap r) !! other) ->
  exists r', stop_other target r other = Some r' /\ stop_result [target] r r'.
Proof.
  intros [To HTo]. unfold stop_other. rewrite HTo. simpl.
  destruct (String.eqb_spec (t_hexdigest To) target) as [Hhash | Hhash].
  - destruct (t_completed To) eqn:Hc.
    + eexists. split; [reflexivity |]. split; [reflexivity |].
      intros t T HT. exists T. split; [exact HT | by left].
    + eexists. split; [reflexivity |]. split; [reflexivity |].
      intros t T HT. simpl.
      destruct (decide (t = other)) as [Heq | Hne].
      * subst t. rewrite lookup_insert_eq. exists (complete To).
        split; [reflexivity |].
        pose proof (eq_trans (eq_sym HT) HTo) as HTT. inversion HTT; subst T.
        right. repeat split; [exact Hc | rewrite Hhash; left].
      * rewrite lookup_insert_ne by congruence. exists T.
        split; [exact HT | by left].
  - eexists. split; [reflexivity |]. apply stop_result_refl.
Qed.

Lemma stop_scan_result (target : string) (others : list target_ref) :
  forall r,
    (forall t, t ∈ others -> is_Some (targets (heap r) !! t)) ->
    exists r', stop_scan target r others = Some r' /\ stop_result [target] r r'.
Proof.
  induction others as [|other rest IH]; intros r Hlive.
  - exists r. split; [reflexivity | apply stop_result_refl].
  - destruct (stop_other_result target r other) as (r1 & Hr1 & Hres1).
    { apply Hlive. left. }
    destruct (IH r1) as (r2 & Hr2 & Hres2).
    { intros t Ht. destruct (Hlive t) as [T HT]; [by right |].
      destruct (proj2 Hres1 t T HT) as (T' & HT' & _). by exists T'. }
    exists r2. split; [simpl; rewrite Hr1; exact Hr2 |].
    by eapply stop_result_trans.
Qed.

Lemma stop_result_live (args : list string) (r r' : Repl) :
  stop_result args r r' -> targets_live r -> targets_live r'.
Proof.
  intros [Hm Hres] Hlive t Ht. rewrite Hm in Ht.
  destruct (Hlive t Ht) as [T HT].
  destruct (Hres t T HT) as (T' & HT' & _). by exists T'.
Qed.

Lemma stop_result_cons (a : string) (args : list string) (r r' : Repl) :
  stop_result args r r' -> stop_result (a :: args) r r'.
Proof.
  intros [Hm Hres]. split; [exact Hm |]. intros t T HT.
  destruct (Hres t T HT) as (T' & HT' & Hs).
  exists T'. split; [exact HT' | by apply stopped_by_more].
Qed.

Lemma stop_result_head (a : string) (args : list string) (r r' : Repl) :
  stop_result [a] r r' -> stop_result (a :: args) r r'.
Proof.
  intros [Hm Hres]. split; [exact Hm |]. intros t T HT.
  destruct (Hres t T HT) as (T' & HT' & [-> | (Hc & Hin & ->)]).
  - exists T. split; [exact HT' | by left].
  - exists (complete T). split; [exact HT' |]. right.
    repeat split; [exact Hc |].
    apply list_elem_of_singleton in Hin. rewrite Hin. left.
Qed.

End Stop.

(** C9. [target stop], on a shell whose listed targets are live, returns;
    it leaves the list of targets as it is, and each target of the store is
    afterwards either what it was or, if it was not completed and its
    digest is among the arguments, the same target completed.  A target
    that was completed stays completed: the only assignment to [completed]
    writes [True], under the test that it is not set. *)
Theorem target_stop_completed_monotone (r : Repl) (args : list string) :
  targets_live r ->
  exists r', _target_stop r args = Some r' /\
    m_targets (manager r') = m_targets (manager r) /\
    targets_live r' /\
    forall t T, targets (heap r) !! t = Some T ->
      exists T', targets (heap r') !! t = Some T' /\
        stopped_by args T T' /\
        (t_completed T = true -> T' = T).
Proof.
  intros Hlive.
  assert (H : exists r', _target_stop r args = Some r' /\ stop_result args r r').
  { revert r Hlive. induction args as [|target rest IH]; intros r Hlive.
    - exists r. split; [reflexivity | apply stop_result_refl].
    - destruct (stop_scan_result target (m_targets (manager r)) r Hlive)
        as (r1 & Hr1 & Hres1).
      destruct (IH r1 (stop_result_live _ _ _ Hres1 Hlive)) as (r2 & Hr2 & Hres2).
      exists r2. split; [simpl; rewrite Hr1; exact Hr2 |].
      eapply stop_result_trans;
        [by apply stop_result_head | by apply stop_result_cons]. }
  destruct H as (r' & Hr' & Hres). exists r'.
  split; [exact Hr' |]. split; [exact (proj1 Hres) |].
  split; [by eapply stop_result_live |].
  intros t T HT. destruct (proj2 Hres t T HT) as (T' & HT' & Hs).
  exists T'. split; [exact HT' |]. split; [exact Hs |].
  intros Hc. destruct Hs as [-> | (Hc' & _)]; [reflexivity | congruence].
Qed.

(** The example: target 1 is listed twice; stopping its digest twice, and
    a digest no target has, completes it once and touches nothing else. *)
Lemma target_stop_example :
  exists r', _target_stop Example.repl0 ["0cc175b9"; "0cc175b9"; "ffffffff"] = Some r' /\
    m_targets (manager r') = m_targets (manager Example.repl0) /\
    targets_live r' /\
    forall t T, targets (heap Example.repl0) !! t = Some T ->
      exists T', targets (heap r') !! t = Some T' /\
        stopped_by ["0cc175b9"; "0cc175b9"; "ffffffff"] T T' /\
        (t_completed T = true -> T' = T).
Proof.
  apply (target_stop_completed_monotone Example.repl0
           ["0cc175b9"; "0cc175b9"; "ffffffff"]).
  intros t Ht. simpl in Ht.
  repeat (apply elem_of_cons in Ht as [-> | Ht]; [by eexists |]).
  by apply not_elem_of_nil in Ht.
Defined.

(** ** The directory monitor *)

Lemma app_singleton_neq {A} (l : list A) (x : A) : l ++ [x] <> l.
Proof.
  intros H. apply (f_equal length) in H. rewrite length_app in H.
  simpl in H. lia.
Qed.

(** C10. An event handed to the handler queues a target exactly when it
    is a [FileCreatedEvent], and then the target is the path of the event;
    any other event, whether it reaches [on_created] or another method of
    the handler, leaves the shell as it is. *)
Theorem on_created_queues_created_files (r : Repl) (event : FileSystemEvent) :
  dispatch r event = on_created r event /\
  on_created r event
  = (if is_FileCreatedEvent event
     then async_alert (queue_target r (src_path event))
                      (queued_alert (src_path event))
     else r) /\
  (queued (manager (dispatch r event)) <> queued (manager r)
   <-> ev_class event = FileCreatedEvent) /\
  (ev_class event = FileCreatedEvent
   <-> queued (manager (dispatch r event))
       = queued (manager r) ++ [src_path event]).
Proof.
  destruct event as [c path].
  unfold dispatch, on_created, is_FileCreatedEvent; simpl.
  pose proof (app_singleton_neq (queued (manager r)) path) as Hneq.
  destruct c; simpl; repeat split; try done; intros H;
    try (exfalso; by apply Hneq); by symmetry in H.
Qed.

(** ** The base85 unit *)

Section Base85Unit.
Import Base85.

Variable env : Env.

Lemma snoc2 {A} (l : list A) (a b : A) : (l ++ [a]) ++ [b] = l ++ [a; b].
Proof. by rewrite <- app_assoc. Qed.

Lemma snoc3 {A} (l : list A) (a b c : A) :
  ((l ++ [a]) ++ [b]) ++ [c] = l ++ [a; b; c].
Proof. by rewrite <- !app_assoc. Qed.

(** The branch that writes an artifact, when the write raises: the calls
    stop at the write, and the handle [create_artifact] returned is still
    open when [evaluate] ends, whether the [except] clause swallows the
    exception or lets it through. *)
Lemma evaluate_write_raises (self : Self) (result : list byte) (e : Exception)
    (w : World) :
  b85decode env (t_raw (self_target self)) = Returned result ->
  isprintable env result = false ->
  is_good_magic env (magic_from_buffer env result) = true ->
  write_error env (next_handle w) result = Some e ->
  evaluate env self w
  = (mkWorld (calls w ++ [AddResults self result;
                          CreateArtifact self "decoded" "wb" true
                            (artifact_path env (next_handle w) "decoded")
                            (next_handle w);
                          HandleWrite (next_handle w) result])
             (open_handles w ++ [next_handle w])
             (S (next_handle w)),
     if caught e then Returned () else Raised e).
Proof.
  intros Hdec Hprint Hmagic Hwrite.
  unfold evaluate, try_except, mbind, M_bind, lift.
  rewrite Hdec, Hprint, Hmagic. simpl.
  unfold handle_write. simpl. rewrite Hwrite.
  unfold log. simpl. rewrite snoc3.
  destruct (caught e); reflexivity.
Qed.

(** The same branch when the write returns: the handle is closed before
    the unit recurses on the artifact. *)
Lemma evaluate_write_returns (self : Self) (result : list byte) (w : World) :
  b85decode env (t_raw (self_target self)) = Returned result ->
  isprintable env result = false ->
  is_good_magic env (magic_from_buffer env result) = true ->
  write_error env (next_handle w) result = None ->
  close_error env (next_handle w) = None ->
  evaluate env self w
  = (mkWorld (calls w ++ [AddResults self result;
                          CreateArtifact self "decoded" "wb" true
                            (artifact_path env (next_handle w) "decoded")
                            (next_handle w);
                          HandleWrite (next_handle w) result;
                          HandleClose (next_handle w);
                          Recurse self
                            (Filename (artifact_path env (next_handle w) "decoded"))])
             (filter (λ h, h ≠ next_handle w) (open_handles w ++ [next_handle w]))
             (S (next_handle w)),
     Returned ()).
Proof.
  intros Hdec Hprint Hmagic Hwrite Hclose.
  unfold evaluate, try_except, mbind, M_bind, lift.
  rewrite Hdec, Hprint, Hmagic. simpl.
  unfold handle_write. simpl. rewrite Hwrite.
  unfold handle_close. simpl. rewrite Hclose.
  unfold katana_recurse, log. simpl.
  by rewrite <- !app_assoc.
Qed.

(** The same branch when the write returns and the close raises: the unit
    does not recurse. *)
Lemma evaluate_close_raises (self : Self) (result : list byte) (e : Exception)
    (w : World) :
  b85decode env (t_raw (self_target self)) = Returned result ->
  isprintable env result = false ->
  is_good_magic env (magic_from_buffer env result) = true ->
  write_error env (next_handle w) result = None ->
  close_error env (next_handle w) = Some e ->
  evaluate env self w
  = (mkWorld (calls w ++ [AddResults self result;
                          CreateArtifact self "decoded" "wb" true
                            (artifact_path env (next_handle w) "decoded")
                            (next_handle w);
                          HandleWrite (next_handle w) result;
                          HandleClose (next_handle w)])
             (filter (λ h, h ≠ next_handle w) (open_handles w ++ [next_handle w]))
             (S (next_handle w)),
     if caught e then Returned () else Raised e).
Proof.
  intros Hdec Hprint Hmagic Hwrite Hclose.
  unfold evaluate, try_except, mbind, M_bind, lift.
  rewrite Hdec, Hprint, Hmagic. simpl.
  unfold handle_write. simpl. rewrite Hwrite.
  unfold handle_close. simpl. rewrite Hclose.
  unfold log. simpl. rewrite <- !app_assoc. simpl.
  destruct (caught e); reflexivity.
Qed.

(** C5. The constructor raises [NotApplicable] when the target is not
    printable, and nothing else; on a printable target it returns the unit
    bound to that target.  Either way the world is untouched. *)
Theorem init_not_applicable_unless_printable (target : Target) (w : World) :
  __init__ target w
  = (w, if t_is_printable target then Returned (mkSelf target)
        else Raised (NotApplicable "not printable data")).
Proof.
  unfold __init__, BaseUnit__init__, mbind, M_bind, mret, M_ret, raise. simpl.
  destruct (t_is_printable target); reflexivity.
Qed.

(** C6. When the decoding of the raw bytes raises one of the exceptions
    the [except] clause names, [evaluate] returns normally and the world is
    as before: no call to [recurse], [add_results] or [create_artifact]. *)
Theorem evaluate_decode_error (self : Self) (e : Exception) (w : World) :
  b85decode env (t_raw (self_target self)) = Raised e ->
  caught e = true ->
  evaluate env self w = (w, Returned ()).
Proof.
  intros Hdec Hcaught.
  unfold evaluate, try_except, mbind, M_bind, lift.
  rewrite Hdec. simpl. by rewrite Hcaught.
Qed.

(** C7. When the raw bytes decode to printable bytes, [evaluate] calls
    [recurse] with the decoded bytes, then [add_results] with the decoded
    bytes, and returns: these two calls are all it adds, no artifact is
    created and no handle opened. *)
Theorem evaluate_printable_result (self : Self) (result : list byte) (w : World) :
  b85decode env (t_raw (self_target self)) = Returned result ->
  isprintable env result = true ->
  evaluate env self w
  = (mkWorld (calls w ++ [Recurse self (Data result); AddResults self result])
             (open_handles w) (next_handle w),
     Returned ()).
Proof.
  intros Hdec Hprint.
  unfold evaluate, try_except, mbind, M_bind, lift.
  rewrite Hdec, Hprint. simpl. unfold log. simpl. by rewrite snoc2.
Qed.

End Base85Unit.

Section Base85Examples.
Import Base85.

(** The library decoder fails by [ValueError] only. *)
Lemma b85decode_raises_ValueError (b : list byte) (e : Exception) :
  PyLib.b85decode b = Raised e -> e = ValueError.
Proof.
  unfold PyLib.b85decode.
  assert (Hchunk : forall c acc x, PyLib.chunk_acc acc c = Raised x -> x = ValueError).
  { induction c as [|y c IH]; intros acc x; simpl; [discriminate |].
    destruct (PyLib._b85dec y); [apply IH | by intros [= <-]]. }
  assert (Hchunks : forall fuel l out x, length l <= fuel ->
            PyLib.decode_chunks l out = Raised x -> x = ValueError).
  { induction fuel as [|fuel IH]; intros l out x Hlen.
    - destruct l; [simpl; discriminate | simpl in Hlen; lia].
    - destruct l as [|c1 [|c2 [|c3 [|c4 [|c5 rest]]]]]; try (simpl; discriminate).
      simpl in Hlen.
      change (PyLib.decode_chunks (c1 :: c2 :: c3 :: c4 :: c5 :: rest) out)
        with (match PyLib.chunk_acc 0 [c1; c2; c3; c4; c5] with
              | Returned acc =>
                  match PyLib.packI acc with
                  | Returned four => PyLib.decode_chunks rest (out ++ four)
                  | Raised e => Raised e
                  end
              | Raised e => Raised e
              end).
      destruct (PyLib.chunk_acc 0 [c1; c2; c3; c4; c5]) as [acc | x'] eqn:Hacc.
      + unfold PyLib.packI. destruct (acc <? 2 ^ 32)%N.
        * apply IH. lia.
        * by intros [= <-].
      + intros [= <-]. by apply Hchunk in Hacc. }
  destruct (PyLib.decode_chunks _ []) as [res | x] eqn:Hd; [discriminate |].
  intros [= <-]. by eapply Hchunks.
Qed.

Example b85decode_hello :
  PyLib.b85decode (list_byte_of_string "Xk~0{Zv")
  = Returned (list_byte_of_string "hello").
Proof. vm_compute. reflexivity. Qed.

Example b85decode_overflow :
  PyLib.b85decode (list_byte_of_string "~~~~~") = Raised ValueError.
Proof. vm_compute. reflexivity. Qed.

Example b85decode_bad_character :
  PyLib.b85decode (list_byte_of_string "ab cd") = Raised ValueError.
Proof. vm_compute. reflexivity. Qed.

End Base85Examples.

(** On [b"~~~~~"], printable and overflowing the 32 bits of a chunk, the
    unit does nothing. *)
Lemma evaluate_decode_error_example :
  Base85.evaluate PyLib.env (Base85.mkSelf (PyLib.inline_target "~~~~~"))
                  Base85.empty_world
  = (Base85.empty_world, Base85.Returned ()).
Proof.
  apply (evaluate_decode_error PyLib.env
           (Base85.mkSelf (PyLib.inline_target "~~~~~")) Base85.ValueError);
    vm_compute; reflexivity.
Defined.

(** On [b"Xk~0{Zv"], which decodes to [b"hello"], the unit recurses on
    [b"hello"] and reports it. *)
Lemma evaluate_printable_example :
  let self := Base85.mkSelf (PyLib.inline_target "Xk~0{Zv") in
  Base85.evaluate PyLib.env self Base85.empty_world
  = (Base85.mkWorld
       [Base85.Recurse self (Base85.Data (list_byte_of_string "hello"));
        Base85.AddResults self (list_byte_of_string "hello")] [] 0,
     Base85.Returned ()).
Proof.
  intros self.
  apply (evaluate_printable_result PyLib.env self (list_byte_of_string "hello")
           Base85.empty_world);
    vm_compute; reflexivity.
Defined.

(** C4 does not hold of the code.  In the artifact branch, whenever the
    write on the handle raises, [evaluate] ends, by the exception or, if the
    [except] clause names it, by a normal return, with the handle that
    [create_artifact] returned still open: [close] is not among the calls
    that were made. *)
Theorem evaluate_leaves_handle_open (env : Base85.Env) (self : Base85.Self)
    (result : list byte) (e : Base85.Exception) (w : Base85.World) :
  Base85.b85decode env (t_raw (Base85.self_target self)) = Base85.Returned result ->
  Base85.isprintable env result = false ->
  Base85.is_good_magic env (Base85.magic_from_buffer env result) = true ->
  Base85.write_error env (Base85.next_handle w) result = Some e ->
  exists w',
    Base85.evaluate env self w
    = (w', if Base85.caught e then Base85.Returned () else Base85.Raised e) /\
    Base85.next_handle w ∈ Base85.open_handles w' /\
    Base85.HandleClose (Base85.next_handle w)
    ∉ drop (length (Base85.calls w)) (Base85.calls w').
Proof.
  intros Hdec Hprint Hmagic Hwrite.
  rewrite (evaluate_write_raises env self result e w Hdec Hprint Hmagic Hwrite).
  eexists. split; [reflexivity |]. simpl. split.
  - apply elem_of_app. right. left.
  - rewrite drop_app_length. intros Hin.
    repeat (apply elem_of_cons in Hin as [Hin | Hin]; [discriminate |]).
    by apply not_elem_of_nil in Hin.
Qed.

(** A whole PNG file of one pixel, in base85, on a full device: [OSError]
    leaves [evaluate] and the handle of the artifact is open. *)
Lemma evaluate_leaves_handle_open_example :
  let self := Base85.mkSelf (PyLib.inline_target PyLib.tiny_png_b85) in
  exists w',
    Base85.evaluate PyLib.env_disk_full self Base85.empty_world
    = (w', Base85.Raised Base85.OSError) /\
    0 ∈ Base85.open_handles w' /\
    Base85.HandleClose 0 ∉ drop 0 (Base85.calls w').
Proof.
  intros self.
  apply (evaluate_leaves_handle_open PyLib.env_disk_full self PyLib.tiny_png
           Base85.OSError Base85.empty_world);
    vm_compute; reflexivity.
Defined.

(** ** The example, run *)

Example three_levels_text :
  generate_solution Example.heap3 3 (2, "flag{ok}")
  = Some (solution_head ("raw.base64", "challenge.txt")
          +:+ step_line 1 ("raw.base85", "W^7?+dv9xf")
          +:+ step_line 2 ("raw.strings", "flag{ok}")
          +:+ flag_line 3 "flag{ok}").
Proof. vm_compute. reflexivity. Qed.

Example three_levels_need_three_steps :
  generate_solution Example.heap3 2 (2, "flag{ok}") = None.
Proof. vm_compute. reflexivity. Qed.

Example on_flag_first_report :
  (r ← on_flag 3 Example.repl0 2 "flag{ok}";
   Some (flags (manager r), paste_buffer r, length (alerts r)))
  = Some ([(2, "flag{ok}")], ["flag{ok}"], 1).
Proof. vm_compute. reflexivity. Qed.

Example on_flag_second_report :
  (r ← on_flag 3 Example.repl0 2 "flag{ok}";
   r ← on_flag 3 r 0 "flag{ok}";
   Some (flags (manager r), paste_buffer r, length (alerts r)))
  = Some ([(2, "flag{ok}")], ["flag{ok}"], 1).
Proof. vm_compute. reflexivity. Qed.

Example stop_completes_once :
  (r ← _target_stop Example.repl0 ["0cc175b9"; "0cc175b9"];
   Some (t_completed <$> targets (heap r) !! 1, length (output r)))
  = Some (Some true, 3).
Proof. vm_compute. reflexivity. Qed.

Example dir_created_is_ignored :
  dispatch Example.repl0 (mkEvent DirCreatedEvent "/tmp/drop") = Example.repl0.
Proof. reflexivity. Qed.

Example file_created_is_queued :
  queued (manager (dispatch Example.repl0 (mkEvent FileCreatedEvent "/tmp/drop/a.bin")))
  = ["/tmp/drop/a.bin"].
Proof. reflexivity. Qed.

Example png_artifact_written :
  Base85.open_handles
    (Base85.evaluate PyLib.env (Base85.mkSelf (PyLib.inline_target PyLib.tiny_png_b85))
                     Base85.empty_world).1
  = [].
Proof. vm_compute. reflexivity. Qed.

(** * Further properties *)

(** ** The branches of [evaluate] *)

Section Base85Branches.
Import Base85.

Variable env : Env.

(** [evaluate] by cases on what the decoder, the printable test, the magic
    test, the write and the close give. *)
Lemma evaluate_cases (self : Self) (w : World) :
  evaluate env self w
  = match b85decode env (t_raw (self_target self)) with
    | Raised e => (w, if caught e then Returned () else Raised e)
    | Returned result =>
        if isprintable env result then
          (mkWorld (calls w ++ [Recurse self (Data result); AddResults self result])
                   (open_handles w) (next_handle w), Returned ())
        else if is_good_magic env (magic_from_buffer env result) then
          let h := next_handle w in
          let filename := artifact_path env h "decoded" in
          match write_error env h result with
          | Some e =>
              (mkWorld (calls w ++ [AddResults self result;
                                    CreateArtifact self "decoded" "wb" true filename h;
                                    HandleWrite h result])
                       (open_handles w ++ [h]) (S h),
               if caught e then Returned () else Raised e)
          | None =>
              match close_error env h with
              | Some e =>
                  (mkWorld (calls w ++ [AddResults self result;
                                        CreateArtifact self "decoded" "wb" true filename h;
                                        HandleWrite h result;
                                        HandleClose h])
                           (filter (λ h', h' ≠ h) (open_handles w ++ [h])) (S h),
                   if caught e then Returned () else Raised e)
              | None =>
                  (mkWorld (calls w ++ [AddResults self result;
                                        CreateArtifact self "decoded" "wb" true filename h;
                                        HandleWrite h result;
                                        HandleClose h;
                                        Recurse self (Filename filename)])
                           (filter (λ h', h' ≠ h) (open_handles w ++ [h])) (S h),
                   Returned ())
              end
          end
        else (w, Returned ())
    end.
Proof.
  destruct (b85decode env (t_raw (self_target self))) as [result | e] eqn:Hdec.
  - destruct (isprintable env result) eqn:Hprint.
    + unfold evaluate, try_except, mbind, M_bind, lift.
      rewrite Hdec, Hprint. simpl. unfold log. simpl. by rewrite snoc2.
    + destruct (is_good_magic env (magic_from_buffer env result)) eqn:Hmagic.
      * cbv zeta.
        destruct (write_error env (next_handle w) result) as [e |] eqn:Hwrite.
        -- by apply evaluate_write_raises.
        -- destruct (close_error env (next_handle w)) as [e |] eqn:Hclose.
           ++ by apply evaluate_close_raises.
           ++ by apply evaluate_write_returns.
      * unfold evaluate, try_except, mbind, M_bind, lift.
        by rewrite Hdec, Hprint, Hmagic.
  - unfold evaluate, try_except, mbind, M_bind, lift. rewrite Hdec.
    destruct (caught e); reflexivity.
Qed.

End Base85Branches.

Section Base85More.
Import Base85.

Lemma filter_fresh_handle (l : list nat) (h : nat) :
  h ∉ l -> filter (λ h', h' ≠ h) (l ++ [h]) = l.
Proof.
  intros Hfresh. rewrite filter_app.
  rewrite (filter_singleton_False (λ h', h' ≠ h) h []) by (intros H; by apply H).
  rewrite app_nil_r.
  induction l as [|x l IH]; [reflexivity |].
  apply not_elem_of_cons in Hfresh as [Hne Hfresh].
  rewrite filter_cons_True by congruence. by rewrite IH.
Qed.

(** X1. Bytes that decode to something neither printable nor of a known
    file type: the unit returns without a call to the engine. *)
Theorem evaluate_unknown_binary (env : Env) (self : Self) (result : list byte)
    (w : World) :
  b85decode env (t_raw (self_target self)) = Returned result ->
  isprintable env result = false ->
  is_good_magic env (magic_from_buffer env result) = false ->
  evaluate env self w = (w, Returned ()).
Proof.
  intros Hdec Hprint Hmagic.
  by rewrite evaluate_cases, Hdec, Hprint, Hmagic.
Qed.

Lemma evaluate_unknown_binary_example :
  evaluate PyLib.env (mkSelf (PyLib.inline_target "009C")) empty_world
  = (empty_world, Returned ()).
Proof.
  apply (evaluate_unknown_binary PyLib.env (mkSelf (PyLib.inline_target "009C"))
           [x00; x01; x02] empty_world);
    vm_compute; reflexivity.
Defined.

(** X2. The artifact branch when the write and the close return: the
    result is reported, the artifact created, written and closed, and only
    then the unit recurses on the file; a handle that was not open before
    is not open afterwards. *)
Theorem evaluate_artifact_closed (env : Env) (self : Self) (result : list byte)
    (w : World) :
  b85decode env (t_raw (self_target self)) = Returned result ->
  isprintable env result = false ->
  is_good_magic env (magic_from_buffer env result) = true ->
  write_error env (next_handle w) result = None ->
  close_error env (next_handle w) = None ->
  next_handle w ∉ open_handles w ->
  exists w',
    evaluate env self w = (w', Returned ()) /\
    open_handles w' = open_handles w /\
    calls w'
    = calls w ++ [AddResults self result;
                  CreateArtifact self "decoded" "wb" true
                    (artifact_path env (next_handle w) "decoded") (next_handle w);
                  HandleWrite (next_handle w) result;
                  HandleClose (next_handle w);
                  Recurse self (Filename (artifact_path env (next_handle w) "decoded"))].
Proof.
  intros Hdec Hprint Hmagic Hwrite Hclose Hfresh.
  rewrite evaluate_cases, Hdec, Hprint, Hmagic. cbv zeta.
  rewrite Hwrite, Hclose.
  eexists. split; [reflexivity |]. split; [| reflexivity].
  simpl. by apply filter_fresh_handle.
Qed.

Lemma evaluate_artifact_closed_example :
  let self := mkSelf (PyLib.inline_target PyLib.tiny_png_b85) in
  exists w',
    evaluate PyLib.env self empty_world = (w', Returned ()) /\
    open_handles w' = [] /\
    calls w'
    = [AddResults self PyLib.tiny_png;
       CreateArtifact self "decoded" "wb" true "results/decoded-0" 0;
       HandleWrite 0 PyLib.tiny_png; HandleClose 0;
       Recurse self (Filename "results/decoded-0")].
Proof.
  intros self.
  apply (evaluate_artifact_closed PyLib.env self PyLib.tiny_png empty_world);
    try (vm_compute; reflexivity).
  apply not_elem_of_nil.
Defined.

(** X3. The artifact branch when the write returns and the close raises,
    as a buffered handle does on a full device: the result has been
    reported and the artifact created and written, the unit does not
    recurse on it, and the exception is swallowed when the [except] clause
    names it and escapes otherwise. *)
Theorem evaluate_close_error (env : Env) (self : Self) (result : list byte)
    (e : Exception) (w : World) :
  b85decode env (t_raw (self_target self)) = Returned result ->
  isprintable env result = false ->
  is_good_magic env (magic_from_buffer env result) = true ->
  write_error env (next_handle w) result = None ->
  close_error env (next_handle w) = Some e ->
  exists w',
    evaluate env self w = (w', if caught e then Returned () else Raised e) /\
    calls w'
    = calls w ++ [AddResults self result;
                  CreateArtifact self "decoded" "wb" true
                    (artifact_path env (next_handle w) "decoded") (next_handle w);
                  HandleWrite (next_handle w) result;
                  HandleClose (next_handle w)].
Proof.
  intros Hdec Hprint Hmagic Hwrite Hclose.
  rewrite evaluate_cases, Hdec, Hprint, Hmagic. cbv zeta.
  rewrite Hwrite, Hclose.
  eexists. split; reflexivity.
Qed.

Lemma evaluate_close_error_example :
  let self := mkSelf (PyLib.inline_target PyLib.tiny_png_b85) in
  exists w',
    evaluate PyLib.env_disk_full_buffered self empty_world = (w', Raised OSError) /\
    calls w'
    = [AddResults self PyLib.tiny_png;
       CreateArtifact self "decoded" "wb" true "results/decoded-0" 0;
       HandleWrite 0 PyLib.tiny_png; HandleClose 0].
Proof.
  intros self.
  apply (evaluate_close_error PyLib.env_disk_full_buffered self PyLib.tiny_png
           OSError empty_world);
    vm_compute; reflexivity.
Defined.

(** X5. With the decoder of the Python library, whatever makes the decoding
    of the raw bytes fail is absorbed: the unit returns and has called
    nothing. *)
Theorem evaluate_absorbs_decoder_failures (env : Env) (self : Self)
    (e : Exception) (w : World) :
  b85decode env = PyLib.b85decode ->
  b85decode env (t_raw (self_target self)) = Raised e ->
  evaluate env self w = (w, Returned ()).
Proof.
  intros Hlib Hdec. rewrite evaluate_cases, Hdec.
  rewrite Hlib in Hdec. apply b85decode_raises_ValueError in Hdec as ->.
  reflexivity.
Qed.

Lemma evaluate_absorbs_bad_character :
  evaluate PyLib.env (mkSelf (PyLib.inline_target "ab cd")) empty_world
  = (empty_world, Returned ()).
Proof.
  apply (evaluate_absorbs_decoder_failures PyLib.env
           (mkSelf (PyLib.inline_target "ab cd")) ValueError empty_world);
    [reflexivity | vm_compute; reflexivity].
Defined.



(** X4. Whenever the write on the artifact raises, [evaluate] has reported
    the result, created the artifact and attempted the write, and nothing
    more: no [close], no recursion, and the handle is still open.  The
    exception is swallowed when the [except] clause names it and escapes
    otherwise. *)
Theorem evaluate_write_error_leaks (env : Env) (self : Self)
    (result : list byte) (e : Exception) (w : World) :
  b85decode env (t_raw (self_target self)) = Returned result ->
  isprintable env result = false ->
  is_good_magic env (magic_from_buffer env result) = true ->
  write_error env (next_handle w) result = Some e ->
  exists w',
    evaluate env self w = (w', if caught e then Returned () else Raised e) /\
    next_handle w ∈ open_handles w' /\
    calls w'
    = calls w ++ [AddResults self result;
                  CreateArtifact self "decoded" "wb" true
                    (artifact_path env (next_handle w) "decoded") (next_handle w);
                  HandleWrite (next_handle w) result].
Proof.
  intros Hdec Hprint Hmagic Hwrite.
  rewrite evaluate_cases, Hdec, Hprint, Hmagic. cbv zeta. rewrite Hwrite.
  eexists. split; [reflexivity |]. split; [| reflexivity].
  simpl. apply elem_of_app. right. left.
Qed.

(** The write that raises, on a whole PNG file and a full device. *)
Lemma evaluate_write_error_example :
  let self := mkSelf (PyLib.inline_target PyLib.tiny_png_b85) in
  exists w',
    evaluate PyLib.env_disk_full self empty_world = (w', Raised OSError) /\
    0 ∈ open_handles w' /\
    calls w'
    = [AddResults self PyLib.tiny_png;
       CreateArtifact self "decoded" "wb" true "results/decoded-0" 0;
       HandleWrite 0 PyLib.tiny_png].
Proof.
  intros self.
  apply (evaluate_write_error_leaks PyLib.env_disk_full self PyLib.tiny_png OSError
           empty_world);
    vm_compute; reflexivity.
Defined.

End Base85More.

(** ** More on stopping targets *)

Section StopMore.

Lemma target_stop_result (args : list string) :
  forall r, targets_live r ->
    exists r', _target_stop r args = Some r' /\ stop_result args r r'.
Proof.
  induction args as [|target rest IH]; intros r Hlive.
  - exists r. split; [reflexivity | apply stop_result_refl].
  - destruct (stop_scan_result target (m_targets (manager r)) r Hlive)
      as (r1 & Hr1 & Hres1).
    destruct (IH r1 (stop_result_live _ _ _ Hres1 Hlive)) as (r2 & Hr2 & Hres2).
    exists r2. split; [simpl; rewrite Hr1; exact Hr2 |].
    eapply stop_result_trans;
      [by apply stop_result_head | by apply stop_result_cons].
Qed.

Lemma stopped_by_digest (args : list string) (T T' : Target) :
  stopped_by args T T' -> t_hexdigest T' = t_hexdigest T.
Proof. by intros [-> | (_ & _ & ->)]. Qed.

Lemma done_if_kept (args : list string) (target : string) (r r' : Repl)
    (t : target_ref) :
  is_Some (targets (heap r) !! t) ->
  stop_result args r r' -> done_if target r t -> done_if target r' t.
Proof.
  intros [T HT] [_ Hres] Hdone T' HT' Hhash.
  destruct (Hres t T HT) as (T'' & HT'' & Hs).
  pose proof (eq_trans (eq_sym HT') HT'') as HTT. inversion HTT; subst T''.
  destruct Hs as [-> | (_ & _ & ->)]; [by apply (Hdone T) | reflexivity].
Qed.

Lemma stop_other_done (target : string) (r r' : Repl) (other : target_ref) :
  stop_other target r other = Some r' -> done_if target r' other.
Proof.
  unfold stop_other. intros H T' HT' Hhash.
  destruct (targets (heap r) !! other) as [To|] eqn:HTo; simpl in H;
    [| discriminate].
  destruct (String.eqb_spec (t_hexdigest To) target) as [Heq | Hne].
  - destruct (t_completed To) eqn:Hc.
    + inversion H; subst r'. simpl in HT'.
      pose proof (eq_trans (eq_sym HT') HTo) as HTT. inversion HTT. congruence.
    + inversion H; subst r'. simpl in HT'.
      rewrite lookup_insert_eq in HT'. by inversion HT'.
  - inversion H; subst r'.
    pose proof (eq_trans (eq_sym HT') HTo) as HTT. inversion HTT. congruence.
Qed.

Lemma stop_scan_done (target : string) (others : list target_ref) :
  forall r r',
    (forall t, t ∈ others -> is_Some (targets (heap r) !! t)) ->
    stop_scan target r others = Some r' ->
    forall t, t ∈ others -> done_if target r' t.
Proof.
  induction others as [|other rest IH]; intros r r' Hlive Hscan t Ht.
  - by apply not_elem_of_nil in Ht.
  - simpl in Hscan.
    destruct (stop_other_result target r other) as (r1 & Hr1 & Hres1).
    { apply Hlive. left. }
    rewrite Hr1 in Hscan. simpl in Hscan.
    assert (Hlive1 : forall t, t ∈ rest -> is_Some (targets (heap r1) !! t)).
    { intros t' Ht'. destruct (Hlive t') as [T HT]; [by right |].
      destruct (proj2 Hres1 t' T HT) as (T' & HT' & _). by exists T'. }
    destruct (stop_scan_result target rest r1 Hlive1) as (r2 & Hr2 & Hres2).
    pose proof (eq_trans (eq_sym Hscan) Hr2) as Hrr. inversion Hrr; subst r2.
    apply elem_of_cons in Ht as [-> | Ht].
    + apply (done_if_kept [target] target r1 r' other); [| exact Hres2 |].
      * destruct (Hlive other) as [T HT]; [left |].
        destruct (proj2 Hres1 other T HT) as (T' & HT' & _). by exists T'.
      * by eapply stop_other_done.
    + by eapply IH.
Qed.

Lemma target_stop_done (args : list string) :
  forall r r', targets_live r -> _target_stop r args = Some r' ->
    forall target t, target ∈ args -> t ∈ m_targets (manager r) ->
      done_if target r' t.
Proof.
  induction args as [|a rest IH]; intros r r' Hlive Hstop target t Hin Ht.
  - by apply not_elem_of_nil in Hin.
  - simpl in Hstop.
    destruct (stop_scan_result a (m_targets (manager r)) r Hlive)
      as (r1 & Hr1 & Hres1).
    rewrite Hr1 in Hstop. simpl in Hstop.
    pose proof (stop_result_live _ _ _ Hres1 Hlive) as Hlive1.
    destruct (target_stop_result rest r1 Hlive1) as (r2 & Hr2 & Hres2).
    pose proof (eq_trans (eq_sym Hstop) Hr2) as Hrr. inversion Hrr; subst r2.
    apply elem_of_cons in Hin as [-> | Hin].
    + apply (done_if_kept rest a r1 r' t); [| exact Hres2 |].
      * apply Hlive1. by rewrite (proj1 Hres1).
      * by eapply (stop_scan_done a (m_targets (manager r)) r r1).
    + apply (IH r1 r' Hlive1 Hstop target t Hin). by rewrite (proj1 Hres1).
Qed.

(** A scan that finds every matching target completed already changes
    neither the store nor the manager. *)
Lemma stop_scan_idle (target : string) (others : list target_ref) :
  forall r,
    (forall t, t ∈ others -> is_Some (targets (heap r) !! t)) ->
    (forall t, t ∈ others -> done_if target r t) ->
    exists r', stop_scan target r others = Some r' /\
      heap r' = heap r /\ manager r' = manager r /\
      exists lines, output r' = output r ++ lines.
Proof.
  induction others as [|other rest IH]; intros r Hlive Hdone.
  - exists r. repeat split; try done. exists []. by rewrite app_nil_r.
  - destruct (Hlive other) as [To HTo]; [left |].
    assert (Hstep : exists r1, stop_other target r other = Some r1 /\
              heap r1 = heap r /\ manager r1 = manager r /\
              exists lines, output r1 = output r ++ lines).
    { unfold stop_other. rewrite HTo. simpl.
      destruct (String.eqb_spec (t_hexdigest To) target) as [Heq | Hne].
      - rewrite (Hdone other (ltac:(left)) To HTo Heq).
        eexists. split; [reflexivity |]. repeat split. by eexists.
      - exists r. repeat split; try done. exists []. by rewrite app_nil_r. }
    destruct Hstep as (r1 & Hr1 & Hh1 & Hm1 & lines1 & Ho1).
    destruct (IH r1) as (r2 & Hr2 & Hh2 & Hm2 & lines2 & Ho2).
    { intros t Ht. rewrite Hh1. apply Hlive. by right. }
    { intros t Ht T HT. rewrite Hh1 in HT. apply (Hdone t); [by right | exact HT]. }
    exists r2. split; [simpl; by rewrite Hr1 |].
    split; [congruence |]. split; [congruence |].
    exists (lines1 ++ lines2). by rewrite Ho2, Ho1, app_assoc.
Qed.

Lemma target_stop_idle (args : list string) :
  forall r, targets_live r ->
    (forall target t, target ∈ args -> t ∈ m_targets (manager r) ->
       done_if target r t) ->
    exists r', _target_stop r args = Some r' /\
      heap r' = heap r /\ manager r' = manager r /\
      exists lines, output r' = output r ++ lines.
Proof.
  induction args as [|a rest IH]; intros r Hlive Hdone.
  - exists r. repeat split; try done. exists []. by rewrite app_nil_r.
  - destruct (stop_scan_idle a (m_targets (manager r)) r Hlive)
      as (r1 & Hr1 & Hh1 & Hm1 & lines1 & Ho1).
    { intros t Ht. apply Hdone; [left | exact Ht]. }
    destruct (IH r1) as (r2 & Hr2 & Hh2 & Hm2 & lines2 & Ho2).
    { intros t Ht. rewrite Hh1. apply Hlive. by rewrite <- Hm1. }
    { intros target t Hin Ht T HT. rewrite Hh1 in HT. rewrite Hm1 in Ht.
      apply (Hdone target t); [by right | exact Ht | exact HT]. }
    exists r2. split; [simpl; by rewrite Hr1 |].
    split; [congruence |]. split; [congruence |].
    exists (lines1 ++ lines2). by rewrite Ho2, Ho1, app_assoc.
Qed.

End StopMore.

(** X7. After [target stop], every target the manager lists whose digest is
    among the arguments is completed. *)
Theorem target_stop_completes (r : Repl) (args : list string) :
  targets_live r ->
  exists r', _target_stop r args = Some r' /\
    forall t, t ∈ m_targets (manager r) ->
      exists T', targets (heap r') !! t = Some T' /\
        (t_hexdigest T' ∈ args -> t_completed T' = true).
Proof.
  intros Hlive.
  destruct (target_stop_result args r Hlive) as (r' & Hr' & Hres).
  exists r'. split; [exact Hr' |]. intros t Ht.
  destruct (stop_result_live _ _ _ Hres Hlive t) as [T' HT'].
  { by rewrite (proj1 Hres). }
  exists T'. split; [exact HT' |]. intros Hin.
  by apply (target_stop_done args r r' Hlive Hr' (t_hexdigest T') t Hin Ht T' HT').
Qed.

Lemma example_targets_live : targets_live Example.repl0.
Proof.
  intros t Ht. simpl in Ht.
  repeat (apply elem_of_cons in Ht as [-> | Ht]; [by eexists |]).
  by apply not_elem_of_nil in Ht.
Defined.

Lemma target_stop_completes_example :
  exists r', _target_stop Example.repl0 ["0cc175b9"; "d41d8cd9"] = Some r' /\
    forall t, t ∈ m_targets (manager Example.repl0) ->
      exists T', targets (heap r') !! t = Some T' /\
        (t_hexdigest T' ∈ ["0cc175b9"; "d41d8cd9"] -> t_completed T' = true).
Proof.
  apply (target_stop_completes Example.repl0 ["0cc175b9"; "d41d8cd9"]).
  exact example_targets_live.
Defined.

(** X8. Stopping the same targets again changes no target: the second
    command leaves the store and the manager as the first left them and
    only prints. *)
Theorem target_stop_twice (r : Repl) (args : list string) :
  targets_live r ->
  exists r' r'' lines,
    _target_stop r args = Some r' /\
    _target_stop r' args = Some r'' /\
    heap r'' = heap r' /\ manager r'' = manager r' /\
    output r'' = output r' ++ lines.
Proof.
  intros Hlive.
  destruct (target_stop_result args r Hlive) as (r' & Hr' & Hres).
  pose proof (stop_result_live _ _ _ Hres Hlive) as Hlive'.
  destruct (target_stop_idle args r' Hlive') as (r'' & Hr'' & Hh & Hm & lines & Ho).
  { intros target t Hin Ht. rewrite (proj1 Hres) in Ht.
    by apply (target_stop_done args r r' Hlive Hr'). }
  by exists r', r'', lines.
Qed.

Lemma target_stop_twice_example :
  exists r' r'' lines,
    _target_stop Example.repl0 ["0cc175b9"] = Some r' /\
    _target_stop r' ["0cc175b9"] = Some r'' /\
    heap r'' = heap r' /\ manager r'' = manager r' /\
    output r'' = output r' ++ lines.
Proof.
  apply (target_stop_twice Example.repl0 ["0cc175b9"]).
  exact example_targets_live.
Defined.

(** X9. A digest that no listed target has is passed over in silence: the
    shell after the command is the shell before, with nothing printed. *)
Theorem target_stop_unknown_digest (r : Repl) (args : list string) :
  targets_live r ->
  (forall t T, t ∈ m_targets (manager r) -> targets (heap r) !! t = Some T ->
     t_hexdigest T ∉ args) ->
  _target_stop r args = Some r.
Proof.
  intros Hlive Hnone.
  assert (Hscan : forall target others,
            target ∈ args -> others ⊆ m_targets (manager r) ->
            stop_scan target r others = Some r).
  { intros target others Hin. induction others as [|other rest IH]; intros Hsub.
    - reflexivity.
    - destruct (Hlive other) as [To HTo]; [apply Hsub; left |].
      simpl. unfold stop_other. rewrite HTo. simpl.
      destruct (String.eqb_spec (t_hexdigest To) target) as [Heq | Hne].
      + exfalso. apply (Hnone other To); [apply Hsub; left | exact HTo |].
        by rewrite Heq.
      + simpl. apply IH. intros t Ht. apply Hsub. by right. }
  assert (Hargs : forall some, some ⊆ args -> _target_stop r some = Some r).
  { induction some as [|a rest IH]; intros Hsub; [reflexivity |].
    simpl. rewrite Hscan; [| apply Hsub; left | done]. simpl.
    apply IH. intros x Hx. apply Hsub. by right. }
  by apply Hargs.
Qed.

Lemma target_stop_unknown_digest_example :
  _target_stop Example.repl0 ["ffffffff"; "00000000"] = Some Example.repl0.
Proof.
  apply (target_stop_unknown_digest Example.repl0 ["ffffffff"; "00000000"]).
  - exact example_targets_live.
  - intros t T Ht HT Hin. simpl in Ht.
    repeat (apply elem_of_cons in Ht as [-> | Ht];
            [vm_compute in HT; inversion HT; subst T;
             repeat (apply elem_of_cons in Hin as [Hin | Hin]; [discriminate |]);
             by apply not_elem_of_nil in Hin |]).
    by apply not_elem_of_nil in Ht.
Defined.

(** X10. A target that has just been stopped is no longer offered when the
    shell completes the argument of [target stop]: none of the items built
    for uncompleted targets carries a digest that was among the arguments. *)
Theorem stopped_target_not_offered (describe : Target -> string) (r : Repl)
    (args : list string) :
  targets_live r ->
  exists r' items,
    _target_stop r args = Some r' /\
    get_target_choices describe r' true = Some items /\
    forall item, item ∈ items -> item.1 ∉ args.
Proof.
  intros Hlive.
  destruct (target_stop_result args r Hlive) as (r' & Hr' & Hres).
  pose proof (stop_result_live _ _ _ Hres Hlive) as Hlive'.
  unfold get_target_choices.
  destruct (mapM (λ t, targets (heap r') !! t) (m_targets (manager r')))
    as [all|] eqn:Hall.
  - eexists r', _. split; [exact Hr' |].
    split; [by rewrite Hall |].
    intros item Hitem Hin.
    apply list_elem_of_fmap in Hitem as (T' & -> & HT'). simpl in Hin.
    apply list_elem_of_filter in HT' as [Hc HT'].
    apply list_elem_of_filter in HT' as [_ HT'].
    apply mapM_Some_1 in Hall.
    apply list_elem_of_lookup in HT' as [i Hi].
    destruct (Forall2_lookup_r _ _ _ _ _ Hall Hi) as (t & Ht & HtT).
    assert (Htin : t ∈ m_targets (manager r)).
    { rewrite <- (proj1 Hres). apply list_elem_of_lookup. by exists i. }
    pose proof (target_stop_done args r r' Hlive Hr' (t_hexdigest T') t Hin Htin
                  T' HtT eq_refl) as Hdone.
    congruence.
  - exfalso. apply mapM_None_1 in Hall. apply Exists_exists in Hall
      as (t & Ht & Hnone).
    destruct (Hlive' t Ht) as [T HT]. congruence.
Qed.

Lemma stopped_target_not_offered_example :
  exists r' items,
    _target_stop Example.repl0 ["d41d8cd9"] = Some r' /\
    get_target_choices t_str r' true = Some items /\
    forall item, item ∈ items -> item.1 ∉ ["d41d8cd9"].
Proof.
  apply (stopped_target_not_offered t_str Example.repl0 ["d41d8cd9"]).
  exact example_targets_live.
Defined.

Example choices_before_and_after_stop :
  get_target_choices t_str Example.repl0 true = Some [("d41d8cd9", "challenge.txt")]
  /\ (r ← _target_stop Example.repl0 ["d41d8cd9"]; get_target_choices t_str r true)
     = Some [].
Proof. split; vm_compute; reflexivity. Qed.

(** ** Queueing *)

(** X11. [target add] queues its arguments in the order given, after what
    was queued before, and prints one line for each; it touches neither the
    store nor the flags. *)
Theorem target_add_queues_all (r : Repl) (args : list string) :
  queued (manager (_target_add r args)) = queued (manager r) ++ args /\
  output (_target_add r args) = output r ++ map queuing_line args /\
  heap (_target_add r args) = heap r /\
  flags (manager (_target_add r args)) = flags (manager r) /\
  alerts (_target_add r args) = alerts r.
Proof.
  revert r. induction args as [|target rest IH]; intros r.
  - simpl. by rewrite !app_nil_r.
  - simpl. destruct (IH (queue_target (poutput r (queuing_line target)) target))
      as (Hq & Ho & Hh & Hf & Ha).
    rewrite Hq, Ho, Hh, Hf, Ha. simpl. by rewrite <- !app_assoc.
Qed.

(** X12. Over a stream of file system events, the targets queued are the
    paths of the [FileCreatedEvent]s, in the order of arrival, and one alert
    is sent for each; all other events leave no trace. *)
Theorem dispatch_stream (events : list FileSystemEvent) (r : Repl) :
  let created := List.filter is_FileCreatedEvent events in
  let r' := foldl dispatch r events in
  queued (manager r') = queued (manager r) ++ map src_path created /\
  alerts r' = alerts r ++ map (λ e, queued_alert (src_path e)) created /\
  heap r' = heap r /\
  flags (manager r') = flags (manager r) /\
  output r' = output r.
Proof.
  revert r. induction events as [|[c path] rest IH]; intros r.
  - simpl. by rewrite !app_nil_r.
  - simpl. destruct (IH (dispatch r (mkEvent c path))) as (Hq & Ha & Hh & Hf & Ho).
    rewrite Hq, Ha, Hh, Hf, Ho.
    destruct c; simpl; try done; by rewrite <- !app_assoc.
Qed.

(** ** Flags in a row *)

Section FlagsMore.

Lemma fresh_guard (r : Repl) (flag : string) :
  (0 <? length (filter (λ f, f.2 = flag) (flags (manager r)))) = false ->
  flag ∉ (flags (manager r)).*2.
Proof.
  intros Hguard Hin.
  apply list_elem_of_fmap in Hin as ([u v] & Hv & Hin). simpl in Hv. subst v.
  by rewrite (duplicate_guard r u flag Hin) in Hguard.
Qed.

Lemma on_flag_submitted (fuel : nat) (r r' : Repl) (unit : unit_ref) (flag : string) :
  auto_submit (manager r) = false ->
  on_flag fuel r unit flag = Some r' ->
  submitted r' = submitted r.
Proof.
  intros Hauto. unfold on_flag.
  destruct (0 <? length _); [by intros [= <-] |]. intros H.
  destruct (build_chain _ fuel unit) as [chain|]; simpl in H; [| discriminate].
  destruct (chain !! 0) as [first|]; simpl in H; [| discriminate].
  destruct (entry_of _ first) as [e0|]; simpl in H; [| discriminate].
  destruct (print_chain _ chain _ _) as [log_entry|]; simpl in H; [| discriminate].
  unfold submit_flag in H.
  change (auto_submit (manager (Monitor_on_flag r unit flag)))
    with (auto_submit (manager r)) in H.
  rewrite Hauto in H. simpl in H. by inversion H.
Qed.

End FlagsMore.

(** X13. However many flags are reported, and by whichever units, the list
    of the monitor never holds one value twice; each value that enters the
    list is put in the paste buffer once and alerted once, and the values
    already there are never pasted again. *)
Theorem on_flags_no_duplicates (fuel : nat) (reports : list (unit_ref * string)) :
  forall r r',
    NoDup (flags (manager r)).*2 ->
    on_flags fuel r reports = Some r' ->
    NoDup (flags (manager r')).*2 /\
    exists new,
      flags (manager r') = flags (manager r) ++ new /\
      paste_buffer r' = paste_buffer r ++ new.*2 /\
      length (alerts r') = length (alerts r) + length new /\
      (forall f, f ∈ new -> f ∈ reports).
Proof.
  induction reports as [|[u v] rest IH]; intros r r' Hnodup Hrun.
  - inversion Hrun; subst r'. split; [exact Hnodup |].
    exists []. rewrite !app_nil_r. repeat split; [simpl; lia |].
    intros f Hf. by apply not_elem_of_nil in Hf.
  - simpl in Hrun.
    destruct (on_flag fuel r u v) as [r1|] eqn:Hstep; simpl in Hrun;
      [| discriminate].
    destruct (0 <? length (filter (λ f, f.2 = v) (flags (manager r))))
      eqn:Hguard.
    + unfold on_flag in Hstep. rewrite Hguard in Hstep.
      inversion Hstep; subst r1.
      destruct (IH r r' Hnodup Hrun) as (Hnd & new & Hf & Hp & Ha & Hsub).
      split; [exact Hnd |]. exists new. repeat split; try done.
      intros f Hin. right. by apply Hsub.
    + destruct (on_flag_fresh fuel r r1 u v Hguard Hstep)
        as (Hf1 & Hp1 & msg & Ha1).
      assert (Hnodup1 : NoDup (flags (manager r1)).*2).
      { rewrite Hf1, fmap_app. apply NoDup_app. split; [exact Hnodup |].
        split; [| apply NoDup_singleton].
        intros x Hx Hx'. simpl in Hx'. apply list_elem_of_singleton in Hx'.
        subst x. by apply (fresh_guard r v Hguard). }
      destruct (IH r1 r' Hnodup1 Hrun) as (Hnd & new & Hf & Hp & Ha & Hsub).
      split; [exact Hnd |]. exists ((u, v) :: new).
      rewrite Hf, Hp, Ha, Hf1, Hp1, Ha1. simpl.
      rewrite <- !app_assoc, length_app. simpl.
      repeat split; [lia |].
      intros f Hin. apply elem_of_cons in Hin as [-> | Hin]; [left |].
      right. by apply Hsub.
Qed.

Lemma on_flags_no_duplicates_example :
  let reports := [(2, "flag{ok}"); (0, "flag{ok}"); (1, "flag{two}"); (2, "flag{ok}")] in
  let r' := default Example.repl0 (on_flags 3 Example.repl0 reports) in
  NoDup (flags (manager r')).*2 /\
  exists new,
    flags (manager r') = flags (manager Example.repl0) ++ new /\
    paste_buffer r' = paste_buffer Example.repl0 ++ new.*2 /\
    length (alerts r') = length (alerts Example.repl0) + length new /\
    (forall f, f ∈ new -> f ∈ reports).
Proof.
  intros reports r'.
  apply (on_flags_no_duplicates 3 reports Example.repl0 r').
  - simpl. apply NoDup_nil_2.
  - vm_compute. reflexivity.
Defined.

Example flags_in_a_row :
  (r ← on_flags 3 Example.repl0
         [(2, "flag{ok}"); (0, "flag{ok}"); (1, "flag{two}"); (2, "flag{ok}")];
   Some (flags (manager r), paste_buffer r, length (alerts r)))
  = Some ([(2, "flag{ok}"); (1, "flag{two}")], ["flag{ok}"; "flag{two}"], 2).
Proof. vm_compute. reflexivity. Qed.

(** X14. Unless the configuration has a section [ctf] with a non-empty
    [auto-submit], [on_flag] never calls the provider: the submissions are
    what they were. *)
Theorem on_flags_without_auto_submit (fuel : nat)
    (reports : list (unit_ref * string)) :
  forall r r',
    auto_submit (manager r) = false ->
    on_flags fuel r reports = Some r' ->
    submitted r' = submitted r.
Proof.
  induction reports as [|[u v] rest IH]; intros r r' Hauto Hrun.
  - by inversion Hrun.
  - simpl in Hrun.
    destruct (on_flag fuel r u v) as [r1|] eqn:Hstep; simpl in Hrun;
      [| discriminate].
    rewrite (IH r1 r'); [by eapply on_flag_submitted | | exact Hrun].
    clear IH Hrun. unfold on_flag in Hstep.
    destruct (0 <? length _); [by inversion Hstep; subst r1 |].
    destruct (build_chain _ fuel u) as [chain|]; simpl in Hstep; [| discriminate].
    destruct (chain !! 0) as [first|]; simpl in Hstep; [| discriminate].
    destruct (entry_of _ first) as [e0|]; simpl in Hstep; [| discriminate].
    destruct (print_chain _ chain _ _) as [log_entry|]; simpl in Hstep;
      [| discriminate].
    destruct (submit_flag _ u v _) as [[r2 msg]|] eqn:Hs; simpl in Hstep;
      [| discriminate].
    apply submit_flag_keeps in Hs as (Hm & _).
    inversion Hstep; subst r1. simpl. by rewrite Hm.
Qed.

Lemma on_flags_without_auto_submit_example :
  let reports := [(2, "flag{ok}"); (1, "flag{two}")] in
  let r' := default Example.repl0 (on_flags 3 Example.repl0 reports) in
  submitted r' = submitted Example.repl0.
Proof.
  intros reports r'.
  apply (on_flags_without_auto_submit 3 reports Example.repl0 r');
    vm_compute; reflexivity.
Defined.

Section FlagAlerts.

(** What [generate_solution] returns on a finite chain. *)
Lemma generate_solution_ancestry (h : Heap) (u : unit_ref)
    (path : list unit_ref) (flag : string) (fuel : nat) :
  ancestry h u path -> length path <= fuel ->
  exists entries,
    mapM (entry_of h) (rev path) = Some entries /\
    generate_solution h fuel (u, flag) = Some (solution_text entries flag).
Proof.
  intros Hanc Hfuel.
  pose proof (build_chain_ancestry h u path fuel Hanc Hfuel) as Hchain.
  destruct (ancestry_rev_entries h u path Hanc)
    as (first & others & e0 & rest & Hrev & He0 & Hrest & Hentries & Hlen).
  exists (e0 :: rest). split; [exact Hentries |].
  rewrite Hrev in Hchain. by eapply generate_solution_entries.
Qed.

Lemma example_ancestry : ancestry Example.heap3 2 [2; 1; 0].
Proof.
  eapply ancestry_step; [reflexivity | reflexivity |].
  eapply ancestry_step; [reflexivity | reflexivity |].
  eapply ancestry_root; reflexivity.
Defined.

Lemma example_ctf_ancestry : ancestry ExampleCtf.heap3 2 [2; 1; 0].
Proof.
  eapply ancestry_step; [reflexivity | reflexivity |].
  eapply ancestry_step; [reflexivity | reflexivity |].
  eapply ancestry_root; reflexivity.
Defined.

End FlagAlerts.

(** The first report of [flag{ok}] in the example. *)
Lemma on_flag_reports_example :
  exists entries,
    mapM (entry_of (heap Example.repl0)) (rev [2; 1; 0]) = Some entries /\
    on_flag 3 Example.repl0 2 "flag{ok}"
    = Some (async_alert
              (write_to_paste_buffer (Monitor_on_flag Example.repl0 2 "flag{ok}")
                                     "flag{ok}")
              (flag_text entries "flag{ok}")).
Proof.
  apply (on_flag_reports 3 Example.repl0 2 [2; 1; 0] "flag{ok}").
  - exact example_ancestry.
  - simpl. lia.
  - reflexivity.
  - reflexivity.
Defined.

(** X16. With automatic submission on, a new flag found under a target
    that belongs to a challenge is submitted to the provider once, with that
    challenge; the flag is recorded and pasted, and the alert ends with the
    line that calls the flag correct, whatever the provider answers:
    [on_flag] tests the tuple that [submit] returns, not its first
    component. *)
Theorem on_flag_submits (fuel : nat) (r : Repl) (unit : unit_ref)
    (path : list unit_ref) (flag : string) (U : Unit) (O : Target)
    (c : Challenge) (o : option target_ref) :
  ancestry (heap r) unit path -> length path <= fuel ->
  (0 <? length (filter (λ f, f.2 = flag) (flags (manager r)))) = false ->
  auto_submit (manager r) = true ->
  units (heap r) !! unit = Some U ->
  targets (heap r) !! u_origin U = Some O ->
  ctf_targets r !! (if t_is_url O then last_segment (t_uri O) else t_hexdigest O)
  = Some (c, o) ->
  exists entries r',
    mapM (entry_of (heap r)) (rev path) = Some entries /\
    on_flag fuel r unit flag = Some r' /\
    submitted r' = submitted r ++ [(c, flag)] /\
    alerts r'
    = alerts r
      ++ [flag_text entries flag
          +:+ nl +:+ nl +:+ "[" +:+ Fore.GREEN +:+ "+" +:+ Style.RESET_ALL
          +:+ "] ctf: " +:+ Fore.GREEN +:+ "correct" +:+ Style.RESET_ALL
          +:+ " flag for challenge " +:+ c_title c +:+ nl] /\
    paste_buffer r' = paste_buffer r ++ [flag] /\
    flags (manager r') = flags (manager r) ++ [(unit, flag)].
Proof.
  intros Hanc Hfuel Hguard Hauto HU HO Hctf.
  pose proof (build_chain_ancestry (heap r) unit path fuel Hanc Hfuel) as Hchain.
  destruct (ancestry_rev_entries (heap r) unit path Hanc)
    as (first & others & e0 & rest & Hrev & He0 & Hrest & Hentries & Hlen).
  exists (e0 :: rest). eexists. split; [exact Hentries |].
  unfold on_flag. rewrite Hguard.
  change (heap (Monitor_on_flag r unit flag)) with (heap r).
  rewrite Hchain, Hrev. cbn [mbind option_bind lookup list_lookup].
  rewrite He0. cbn [mbind option_bind].
  rewrite (print_chain_below_head (heap r) first others rest _ Hrest).
  cbn [mbind option_bind].
  unfold submit_flag.
  change (auto_submit (manager (Monitor_on_flag r unit flag)))
    with (auto_submit (manager r)).
  change (heap (Monitor_on_flag r unit flag)) with (heap r).
  change (ctf_targets (Monitor_on_flag r unit flag)) with (ctf_targets r).
  rewrite Hauto, HU. cbn [mbind option_bind]. rewrite HO. cbn [mbind option_bind].
  rewrite Hctf. cbn [mbind option_bind].
  split; [reflexivity |]. simpl.
  repeat split.
  do 2 f_equal. cbn [flag_text length].
  rewrite (Forall2_length _ _ _ Hrest).
  by rewrite !string_app_assoc.
Qed.

(** The provider of the example refuses [flag{no}]; the alert calls it
    correct. *)
Lemma on_flag_submits_example :
  (ctf_submit ExampleCtf.repl0 ExampleCtf.challenge "flag{no}").1 = false /\
  exists entries r',
    mapM (entry_of (heap ExampleCtf.repl0)) (rev [2; 1; 0]) = Some entries /\
    on_flag 3 ExampleCtf.repl0 2 "flag{no}" = Some r' /\
    submitted r' = submitted ExampleCtf.repl0 ++ [(ExampleCtf.challenge, "flag{no}")] /\
    alerts r'
    = alerts ExampleCtf.repl0
      ++ [flag_text entries "flag{no}"
          +:+ nl +:+ nl +:+ "[" +:+ Fore.GREEN +:+ "+" +:+ Style.RESET_ALL
          +:+ "] ctf: " +:+ Fore.GREEN +:+ "correct" +:+ Style.RESET_ALL
          +:+ " flag for challenge " +:+ c_title ExampleCtf.challenge +:+ nl] /\
    paste_buffer r' = paste_buffer ExampleCtf.repl0 ++ ["flag{no}"] /\
    flags (manager r') = flags (manager ExampleCtf.repl0) ++ [(2, "flag{no}")].
Proof.
  split; [reflexivity |].
  apply (on_flag_submits 3 ExampleCtf.repl0 2 [2; 1; 0] "flag{no}"
           (mkUnit "raw.strings" 2 0) ExampleCtf.root_target
           ExampleCtf.challenge (Some 0)).
  - exact example_ctf_ancestry.
  - simpl. lia.
  - reflexivity.
  - vm_compute. reflexivity.
  - reflexivity.
  - reflexivity.
  - vm_compute. reflexivity.
Defined.

(** ** Showing solutions *)

Section Solutions.

Lemma flags_of_target_none (h : Heap) (target : string)
    (fl : list (unit_ref * string)) :
  Forall (λ f, exists d, origin_digest h f.1 = Some d /\ d <> target) fl ->
  flags_of_target h target fl = Some [].
Proof.
  induction 1 as [|f fl (d & Hd & Hne) _ IH]; [reflexivity |].
  simpl. rewrite Hd, IH. simpl.
  by destruct (String.eqb_spec d target).
Qed.

Lemma flags_of_target_first (h : Heap) (target : string)
    (pre post : list (unit_ref * string)) (f : unit_ref * string) :
  Forall (λ f, exists d, origin_digest h f.1 = Some d /\ d <> target) pre ->
  origin_digest h f.1 = Some target ->
  Forall (λ f, is_Some (origin_digest h f.1)) post ->
  exists others, flags_of_target h target (pre ++ f :: post) = Some (f :: others).
Proof.
  intros Hpre Hf Hpost.
  assert (Hp : exists others, flags_of_target h target post = Some others).
  { induction Hpost as [|g post [d Hd] _ [others IH]]; [by exists [] |].
    simpl. rewrite Hd, IH. simpl. by eexists. }
  destruct Hp as [others Hothers].
  exists others.
  induction Hpre as [|g pre (d & Hd & Hne) _ IH].
  - simpl. rewrite Hf, Hothers. simpl. by rewrite String.eqb_refl.
  - simpl. rewrite Hd, IH. simpl. by destruct (String.eqb_spec d target).
Qed.

End Solutions.

(** X17. [target solution] for a digest under which no flag was found:
    the line [no flags found] goes to the error stream, nothing is printed
    and the shell is as it was. *)
Theorem target_solution_no_flags (fuel : nat) (r : Repl) (target : string) :
  Forall (λ f, exists d, origin_digest (heap r) f.1 = Some d /\ d <> target)
         (flags (manager r)) ->
  _target_solution fuel r target = Some (r, [no_flags_found target]).
Proof.
  intros Hnone. unfold _target_solution.
  by rewrite (flags_of_target_none _ _ _ Hnone).
Qed.

Lemma target_solution_no_flags_example :
  _target_solution 3 Example.repl0 "d41d8cd9"
  = Some (Example.repl0, [no_flags_found "d41d8cd9"]).
Proof.
  apply (target_solution_no_flags 3 Example.repl0 "d41d8cd9").
  simpl. constructor.
Defined.

(** X18. When several flags were found under the target, [target solution]
    shows the chain of the one recorded first, after a line that says which
    was selected; with a single flag it prints the chain alone.  Nothing
    goes to the error stream. *)
Theorem target_solution_first_flag (fuel : nat) (r : Repl) (target : string)
    (pre post : list (unit_ref * string)) (u : unit_ref) (v : string)
    (path : list unit_ref) :
  flags (manager r) = pre ++ (u, v) :: post ->
  Forall (λ f, exists d, origin_digest (heap r) f.1 = Some d /\ d <> target) pre ->
  origin_digest (heap r) u = Some target ->
  Forall (λ f, is_Some (origin_digest (heap r) f.1)) post ->
  ancestry (heap r) u path -> length path <= fuel ->
  exists entries lines,
    mapM (entry_of (heap r)) (rev path) = Some entries /\
    _target_solution fuel r target
    = Some (mkRepl (heap r) (manager r) (ctf_targets r) (ctf_submit r)
                   (submitted r) (paste_buffer r) (alerts r)
                   (output r ++ lines ++ [solution_text entries v]) (prompt r),
            []) /\
    (lines = [] \/ exists o, origin_str (heap r) u = Some o /\
                            lines = [selecting target o]) /\
    (Forall (λ f, origin_digest (heap r) f.1 <> Some target) post -> lines = []).
Proof.
  intros Hflags Hpre Hu Hpost Hanc Hfuel.
  destruct (generate_solution_ancestry (heap r) u path v fuel Hanc Hfuel)
    as (entries & Hentries & Hsol).
  destruct (flags_of_target_first (heap r) target pre post (u, v) Hpre Hu Hpost)
    as (others & Hothers).
  exists entries.
  assert (Ho : exists o, origin_str (heap r) u = Some o).
  { unfold origin_digest in Hu. unfold origin_str.
    destruct (units (heap r) !! u) as [U|]; simpl in *; [| discriminate].
    destruct (targets (heap r) !! u_origin U) as [O|]; simpl in *;
      [by eexists | discriminate]. }
  destruct Ho as [o Ho].
  unfold _target_solution. rewrite Hflags, Hothers.
  cbn [mbind option_bind fst snd].
  destruct others as [|g others].
  - exists [].
    change (1 <? length [(u, v)]) with false.
    cbn iota. cbn [mbind option_bind].
    rewrite Hsol. cbn [mbind option_bind].
    split; [exact Hentries |]. split; [reflexivity |].
    split; [by left | reflexivity].
  - exists [selecting target o].
    change (1 <? length ((u, v) :: g :: others)) with true.
    cbn iota. rewrite Ho. cbn [mbind option_bind].
    change (heap (poutput r (selecting target o))) with (heap r).
    rewrite Hsol. cbn [mbind option_bind].
    split; [exact Hentries |].
    split; [unfold poutput; simpl; by rewrite <- app_assoc |].
    split; [right; by exists o |].
    intros Hnot. exfalso.
    assert (Hnil : flags_of_target (heap r) target post = Some []).
    { apply flags_of_target_none.
      apply Forall_forall. intros f Hf.
      destruct (proj1 (Forall_forall _ _) Hpost f Hf) as [d Hd].
      exists d. split; [exact Hd |]. intros ->.
      by apply (proj1 (Forall_forall _ _) Hnot f Hf). }
    clear Hsol Hentries.
    assert (Hsome : flags_of_target (heap r) target (pre ++ (u, v) :: post)
                    = Some [(u, v)]).
    { clear Hothers Hflags. induction Hpre as [|f pre (d & Hd & Hne) _ IH].
      - simpl. rewrite Hu, Hnil. simpl. by rewrite String.eqb_refl.
      - simpl. rewrite Hd, IH. simpl. by destruct (String.eqb_spec d target). }
    rewrite Hsome in Hothers. discriminate.
Qed.

Lemma target_solution_first_flag_example :
  let r := default Example.repl0
             (on_flags 3 Example.repl0 [(1, "flag{two}"); (2, "flag{ok}")]) in
  exists entries lines,
    mapM (entry_of (heap r)) (rev [1; 0]) = Some entries /\
    _target_solution 3 r "d41d8cd9"
    = Some (mkRepl (heap r) (manager r) (ctf_targets r) (ctf_submit r)
                   (submitted r) (paste_buffer r) (alerts r)
                   (output r ++ lines ++ [solution_text entries "flag{two}"])
                   (prompt r),
            []) /\
    (lines = [] \/ exists o, origin_str (heap r) 1 = Some o /\
                            lines = [selecting "d41d8cd9" o]) /\
    (Forall (λ f, origin_digest (heap r) f.1 <> Some "d41d8cd9") [(2, "flag{ok}")]
     -> lines = []).
Proof.
  intros r.
  apply (target_solution_first_flag 3 r "d41d8cd9" [] [(2, "flag{ok}")] 1
           "flag{two}" [1; 0]).
  - vm_compute. reflexivity.
  - constructor.
  - vm_compute. reflexivity.
  - constructor; [by eexists | constructor].
  - eapply ancestry_step; [reflexivity | reflexivity |].
    eapply ancestry_root; reflexivity.
  - simpl. lia.
Defined.

(** ** The parameter of [set] *)

Section SetParameter.

Lemma span_name_run (name rest : string) :
  Forall (λ c, is_name_char c = true) (list_ascii_of_string name) ->
  match rest with
  | EmptyString => True
  | String c _ => is_name_char c = false
  end ->
  span_name (name +:+ rest) = (name, rest).
Proof.
  intros Hname Hrest. induction name as [|c name IH].
  - destruct rest as [|c rest]; [reflexivity |].
    change ("" +:+ String c rest) with (String c rest).
    simpl. by rewrite Hrest.
  - change (String c name +:+ rest) with (String c (name +:+ rest)).
    simpl in Hname. inversion Hname as [|? ? Hc Hname']; subst.
    simpl. rewrite Hc, IH by exact Hname'. reflexivity.
Qed.

End SetParameter.

(** X19. A parameter written [section[name]], both parts made of letters,
    digits, underscores and hyphens, is split into that section and that
    name, whatever follows the closing bracket; a parameter made of such
    characters only, with no bracket, is a name of the section [DEFAULT]. *)
Theorem set_parameter_split (section name tail : string) :
  Forall (λ c, is_name_char c = true) (list_ascii_of_string section) ->
  Forall (λ c, is_name_char c = true) (list_ascii_of_string name) ->
  set_parameter (section +:+ "[" +:+ name +:+ "]" +:+ tail) = (section, name) /\
  set_parameter name = ("DEFAULT", name).
Proof.
  intros Hsection Hname. split.
  - unfold set_parameter, match_parameter.
    rewrite (span_name_run section ("[" +:+ name +:+ "]" +:+ tail) Hsection)
      by reflexivity.
    change ("[" +:+ name +:+ "]" +:+ tail)
      with (String "["%char (name +:+ "]" +:+ tail)).
    cbv iota beta.
    rewrite (span_name_run name ("]" +:+ tail) Hname) by reflexivity.
    reflexivity.
  - unfold set_parameter, match_parameter.
    pose proof (span_name_run name "" Hname I) as Hrun.
    assert (Hnil : name +:+ "" = name).
    { clear. induction name as [|c s IH]; [reflexivity |].
      change (String c (s +:+ "") = String c s). by f_equal. }
    rewrite Hnil in Hrun. by rewrite Hrun.
Qed.

Lemma set_parameter_split_example :
  set_parameter ("ctf" +:+ "[" +:+ "auto-submit" +:+ "]" +:+ "") = ("ctf", "auto-submit")
  /\ set_parameter "auto-submit" = ("DEFAULT", "auto-submit").
Proof.
  apply (set_parameter_split "ctf" "auto-submit" "");
    repeat constructor.
Defined.

Example set_parameter_unclosed :
  set_parameter "ctf[url" = ("DEFAULT", "ctf[url").
Proof. reflexivity. Qed.

Example set_parameter_other_characters :
  set_parameter "my section[url]" = ("DEFAULT", "my section[url]").
Proof. reflexivity. Qed.

(** ** The table of brackets *)

Section Brackets.

Lemma py_len_spaces (n : nat) : py_len (spaces n) = n.
Proof.
  induction n as [|n IH]; [reflexivity |].
  change (spaces (S n)) with (String " "%char (spaces n)).
  cbn [py_len]. change (is_continuation_byte " "%char) with false.
  cbv iota. by rewrite IH.
Qed.

Lemma py_len_app (a b : string) : py_len (a +:+ b) = py_len a + py_len b.
Proof.
  induction a as [|c a IH]; [reflexivity |].
  change (String c a +:+ b) with (String c (a +:+ b)). cbn [py_len].
  destruct (is_continuation_byte c); rewrite IH; reflexivity.
Qed.

Lemma ljust_len (s : string) (width : nat) :
  py_len (ljust s width) = Nat.max (py_len s) width.
Proof. unfold ljust. rewrite py_len_app, py_len_spaces. lia. Qed.

End Brackets.

(** X20. With no bracket nothing is printed.  Otherwise the table has a
    header and one row per bracket, in order, and in every row the
    identifier starts at the same column, counted in characters: the name
    is padded to the length of the longest name plus two.  The header is
    padded to the same width when that width is at least the seven
    characters of its title. *)
Theorem ctf_bracket_aligned (brackets : list Bracket) :
  let width := max_list (map (λ b, py_len (b_name b)) brackets) + 2 in
  (brackets = [] -> _ctf_bracket brackets = None) /\
  (brackets <> [] ->
   _ctf_bracket brackets
   = Some (String.concat nl
             ((" " +:+ Style.BRIGHT +:+ ljust "Bracket" width +:+ "ID"
               +:+ Style.RESET_ALL)
              :: map (λ b, " " +:+ ljust (b_name b) width +:+ b_ident b) brackets))) /\
  (forall b, b ∈ brackets ->
     py_len (ljust (b_name b) width) = width /\
     exists pad,
       ljust (b_name b) width = b_name b +:+ spaces pad /\
       py_len (b_name b) + pad = width /\ 2 <= pad) /\
  (exists pad,
     ljust "Bracket" width = "Bracket" +:+ spaces pad /\
     7 + pad = Nat.max 7 width).
Proof.
  intros width. split; [by intros -> |]. split.
  - intros Hne. unfold _ctf_bracket.
    destruct brackets as [|b rest]; [done | reflexivity].
  - split.
    + intros b Hb.
      assert (Hle : py_len (b_name b)
                    ≤ max_list (map (λ b, py_len (b_name b)) brackets)).
      { apply max_list_elem_of_le. apply list_elem_of_fmap. by exists b. }
      split; [rewrite ljust_len; unfold width; lia |].
      exists (width - py_len (b_name b)).
      split; [reflexivity |]. unfold width. lia.
    + exists (width - 7). split; [reflexivity | lia].
Qed.

(** A name with an accent: [Lycée] is five characters in six bytes. *)
Lemma ctf_bracket_example :
  let brackets := [mkBracket "Open" "1"; mkBracket "Lycée" "2"] in
  (brackets = [] -> _ctf_bracket brackets = None) /\
  (brackets <> [] ->
   _ctf_bracket brackets
   = Some (String.concat nl
             ((" " +:+ Style.BRIGHT +:+ ljust "Bracket" 7 +:+ "ID"
               +:+ Style.RESET_ALL)
              :: map (λ b, " " +:+ ljust (b_name b) 7 +:+ b_ident b) brackets))) /\
  (forall b, b ∈ brackets ->
     py_len (ljust (b_name b) 7) = 7 /\
     exists pad,
       ljust (b_name b) 7 = b_name b +:+ spaces pad /\
       py_len (b_name b) + pad = 7 /\ 2 <= pad) /\
  (exists pad,
     ljust "Bracket" 7 = "Bracket" +:+ spaces pad /\
     7 + pad = Nat.max 7 7).
Proof.
  intros brackets. exact (ctf_bracket_aligned brackets).
Defined.

Example accented_name_row :
  _ctf_bracket [mkBracket "Open" "1"; mkBracket "Lycée" "2"]
  = Some (" " +:+ Style.BRIGHT +:+ "BracketID" +:+ Style.RESET_ALL +:+ nl
          +:+ " Open   1" +:+ nl +:+ " Lycée  2").
Proof. vm_compute. reflexivity. Qed.

Example short_names_shift_the_header :
  _ctf_bracket [mkBracket "A" "1"; mkBracket "B" "2"]
  = Some (" " +:+ Style.BRIGHT +:+ "BracketID" +:+ Style.RESET_ALL +:+ nl
          +:+ " A  1" +:+ nl +:+ " B  2").
Proof. vm_compute. reflexivity. Qed.

(** ** Monitored directories *)

Section Monitors.
Import Monitor.

Variable fs : FS.

Lemma lookup_dir_None (key : string) (d : list (string * ObservedWatch)) :
  lookup_dir key d = None <-> key ∉ d.*1.
Proof.
  induction d as [|[k w] rest IH]; simpl.
  - split; [intros _; apply not_elem_of_nil | done].
  - destruct (String.eqb_spec k key) as [-> | Hne].
    + split; [discriminate | intros H; exfalso; apply H; left].
    + rewrite IH, not_elem_of_cons.
      split; [intros H; split; [congruence | exact H] | by intros [_ H]].
Qed.

Lemma lookup_dir_Some (key : string) (w : ObservedWatch)
    (d : list (string * ObservedWatch)) :
  lookup_dir key d = Some w -> (key, w) ∈ d.
Proof.
  induction d as [|[k w'] rest IH]; simpl; [discriminate |].
  destruct (String.eqb_spec k key) as [-> | Hne].
  - intros [= ->]. left.
  - intros H. right. by apply IH.
Qed.

Lemma lookup_dir_snoc (key : string) (w : ObservedWatch)
    (d : list (string * ObservedWatch)) :
  lookup_dir key d = None -> lookup_dir key (d ++ [(key, w)]) = Some w.
Proof.
  induction d as [|[k w'] rest IH]; simpl.
  - by rewrite String.eqb_refl.
  - destruct (String.eqb_spec k key); [discriminate | exact IH].
Qed.

Lemma delete_dir_absent (key : string) (d : list (string * ObservedWatch)) :
  lookup_dir key d = None -> delete_dir key d = d.
Proof.
  induction d as [|[k w'] rest IH]; simpl; [reflexivity |].
  destruct (String.eqb_spec k key); [discriminate |].
  intros H. by rewrite IH.
Qed.

Lemma delete_dir_snoc (key : string) (w : ObservedWatch)
    (d : list (string * ObservedWatch)) :
  lookup_dir key d = None -> delete_dir key (d ++ [(key, w)]) = d.
Proof.
  induction d as [|[k w'] rest IH]; simpl.
  - by rewrite String.eqb_refl.
  - destruct (String.eqb_spec k key); [discriminate |].
    intros H. by rewrite IH.
Qed.

Lemma active_snoc (log : list ObserverCall) (c : ObserverCall) :
  active (log ++ [c])
  = match c with
    | Schedule w => active log ++ [w]
    | Unschedule w => remove_first w (active log)
    end.
Proof. unfold active. by rewrite foldl_app. Qed.

Lemma delete_dir_sub (key : string) (d : list (string * ObservedWatch))
    (entry : string * ObservedWatch) :
  entry ∈ delete_dir key d -> entry ∈ d.
Proof.
  induction d as [|[k0 w0] rest IH]; cbn [delete_dir]; [done |].
  destruct (String.eqb k0 key); [intros H; right; by apply IH |].
  intros H. apply elem_of_cons in H as [-> | H]; [left | right; by apply IH].
Qed.

Lemma delete_dir_watches (key : string) (w : ObservedWatch)
    (d : list (string * ObservedWatch)) :
  NoDup d.*1 ->
  Forall (λ entry, entry.1 = realpath fs (w_path entry.2)) d ->
  lookup_dir key d = Some w ->
  (delete_dir key d).*2 = remove_first w d.*2 /\
  NoDup (delete_dir key d).*1 /\
  Forall (λ entry, entry.1 = realpath fs (w_path entry.2)) (delete_dir key d).
Proof.
  induction d as [|[k w'] rest IH]; cbn [lookup_dir delete_dir];
    [discriminate |].
  rewrite !fmap_cons. cbn [fst snd remove_first].
  intros Hnd Hall Hlook.
  apply NoDup_cons in Hnd as [Hk Hnd].
  apply Forall_cons in Hall as [Hkw Hall]. cbn [fst snd] in Hkw.
  destruct (String.eqb_spec k key) as [-> | Hne].
  - inversion Hlook; subst w'.
    rewrite delete_dir_absent by (by apply lookup_dir_None).
    rewrite decide_True by reflexivity. done.
  - destruct (IH Hnd Hall Hlook) as (Hw & Hnd' & Hall').
    assert (Hww : w' <> w).
    { intros ->. apply Hne. rewrite Hkw.
      apply lookup_dir_Some in Hlook.
      by apply (proj1 (Forall_forall _ _) Hall (key, w)) in Hlook. }
    rewrite decide_False by exact Hww.
    rewrite !fmap_cons. cbn [fst snd]. rewrite Hw.
    split; [reflexivity |]. split.
    + apply NoDup_cons. split; [| exact Hnd'].
      intros Hin. apply Hk.
      apply list_elem_of_fmap in Hin as ([k' w''] & -> & Hin).
      apply list_elem_of_fmap. exists (k', w''). split; [reflexivity |].
      by eapply delete_dir_sub.
    + by apply Forall_cons.
Qed.

Lemma monitor_add_consistent (recursive : bool) (directory : list string) :
  forall m, consistent fs m ->
    consistent fs (monitor_add fs recursive m directory).1.
Proof.
  induction directory as [|dir rest IH]; intros m Hm; [exact Hm |].
  simpl. destruct (isdir fs dir); simpl; [| exact Hm].
  destruct (lookup_dir (realpath fs dir) (directories m)) as [w|] eqn:Hlook.
  - apply IH. exact Hm.
  - apply IH. destruct Hm as (Hnd & Hall & Hact).
    unfold consistent. simpl. repeat split.
    + rewrite fmap_app. apply NoDup_app. split; [exact Hnd |].
      split; [| apply NoDup_singleton].
      intros k Hk Hk'. apply list_elem_of_singleton in Hk'. subst k.
      by apply lookup_dir_None in Hlook.
    + apply Forall_app. split; [exact Hall |]. by constructor.
    + by rewrite active_snoc, fmap_app, Hact.
Qed.

Lemma monitor_remove_consistent (directory : list string) :
  forall m, consistent fs m ->
    consistent fs (monitor_remove fs m directory).1.
Proof.
  induction directory as [|dir rest IH]; intros m Hm; [exact Hm |].
  simpl. destruct (isdir fs dir); simpl; [| exact Hm].
  destruct (lookup_dir (realpath fs dir) (directories m)) as [w|] eqn:Hlook;
    [| exact Hm].
  apply IH. destruct Hm as (Hnd & Hall & Hact).
  destruct (delete_dir_watches _ _ _ Hnd Hall Hlook) as (Hw & Hnd' & Hall').
  unfold consistent. simpl. repeat split; [exact Hnd' | exact Hall' |].
  by rewrite active_snoc, Hact, Hw.
Qed.

Lemma do_monitor_consistent (m : Monitors) (args : Args) :
  consistent fs m -> consistent fs (do_monitor fs m args).1.
Proof.
  destruct args as [recursive directory | directory |]; simpl.
  - apply monitor_add_consistent.
  - apply monitor_remove_consistent.
  - done.
Qed.

Lemma monitor_add_app (recursive : bool) (pre post : list string) :
  forall m,
    monitor_add fs recursive m (pre ++ post)
    = match monitor_add fs recursive m pre with
      | (m', ReturnedFalse) => monitor_add fs recursive m' post
      | (m', AttributeError) => (m', AttributeError)
      end.
Proof.
  induction pre as [|dir pre IH]; intros m; [reflexivity |].
  simpl. destruct (isdir fs dir); simpl; [| reflexivity].
  destruct (lookup_dir _ _); apply IH.
Qed.

Lemma monitor_add_directories (recursive : bool) (directory : list string) :
  Forall (λ d, isdir fs d = true) directory ->
  forall m, (monitor_add fs recursive m directory).2 = ReturnedFalse.
Proof.
  induction 1 as [|dir rest Hdir _ IH]; intros m; [reflexivity |].
  simpl. rewrite Hdir. simpl. destruct (lookup_dir _ _); apply IH.
Qed.

End Monitors.

(** X21. A directory that is added and then removed, under the same or
    another spelling of the same real path, is monitored in between and
    not afterwards: the table is back to what it was, the observer was
    asked to schedule one watch and to unschedule that same watch, and no
    error was written. *)
Theorem monitor_add_then_remove (fs : Monitor.FS) (m : Monitor.Monitors)
    (dir dir' : string) (recursive : bool) :
  Monitor.isdir fs dir = true -> Monitor.isdir fs dir' = true ->
  Monitor.realpath fs dir' = Monitor.realpath fs dir ->
  Monitor.lookup_dir (Monitor.realpath fs dir) (Monitor.directories m) = None ->
  let watch := Monitor.mkWatch dir recursive in
  let added := Monitor.do_monitor fs m (Monitor.ActionAdd recursive [dir]) in
  let removed := Monitor.do_monitor fs added.1 (Monitor.ActionRemove [dir']) in
  added.2 = Monitor.ReturnedFalse /\
  Monitor.directories added.1
  = Monitor.directories m ++ [(Monitor.realpath fs dir, watch)] /\
  removed.2 = Monitor.ReturnedFalse /\
  Monitor.directories removed.1 = Monitor.directories m /\
  Monitor.observer removed.1
  = Monitor.observer m ++ [Monitor.Schedule watch; Monitor.Unschedule watch] /\
  Monitor.errors removed.1 = Monitor.errors m /\
  Monitor.printed removed.1 = Monitor.printed m.
Proof.
  intros Hdir Hdir' Hreal Hlook watch added removed.
  assert (Hadd : added
                 = (Monitor.mkMonitors
                      (Monitor.directories m ++ [(Monitor.realpath fs dir, watch)])
                      (Monitor.observer m ++ [Monitor.Schedule watch])
                      (Monitor.errors m) (Monitor.printed m),
                    Monitor.ReturnedFalse)).
  { subst added. cbn [Monitor.do_monitor Monitor.monitor_add].
    rewrite Hdir. cbn [negb]. by rewrite Hlook. }
  subst removed. rewrite Hadd. cbn [fst snd].
  cbn [Monitor.do_monitor Monitor.monitor_remove Monitor.directories
       Monitor.observer Monitor.errors Monitor.printed].
  rewrite Hdir'. cbn [negb]. rewrite Hreal.
  rewrite (lookup_dir_snoc _ watch _ Hlook).
  rewrite (delete_dir_snoc _ watch _ Hlook).
  cbn [fst snd Monitor.directories Monitor.observer Monitor.errors
       Monitor.printed].
  repeat split. by rewrite <- app_assoc.
Qed.

Lemma monitor_add_then_remove_example :
  let watch := Monitor.mkWatch "/srv/in/." true in
  let added := Monitor.do_monitor Monitor.fs0 Monitor.empty
                 (Monitor.ActionAdd true ["/srv/in/."]) in
  let removed := Monitor.do_monitor Monitor.fs0 added.1
                   (Monitor.ActionRemove ["/srv/in"]) in
  added.2 = Monitor.ReturnedFalse /\
  Monitor.directories added.1
  = Monitor.directories Monitor.empty
    ++ [(Monitor.realpath Monitor.fs0 "/srv/in/.", watch)] /\
  removed.2 = Monitor.ReturnedFalse /\
  Monitor.directories removed.1 = Monitor.directories Monitor.empty /\
  Monitor.observer removed.1
  = Monitor.observer Monitor.empty
    ++ [Monitor.Schedule watch; Monitor.Unschedule watch] /\
  Monitor.errors removed.1 = Monitor.errors Monitor.empty /\
  Monitor.printed removed.1 = Monitor.printed Monitor.empty.
Proof.
  apply (monitor_add_then_remove Monitor.fs0 Monitor.empty "/srv/in/." "/srv/in" true);
    reflexivity.
Defined.

(** X22. Two spellings of one directory in the same [monitor add]: the
    first is scheduled, the second is refused with the line
    [already monitored], and the table holds the directory once, under its
    real path. *)
Theorem monitor_add_same_directory (fs : Monitor.FS) (m : Monitor.Monitors)
    (dir dir' : string) (recursive : bool) :
  Monitor.isdir fs dir = true -> Monitor.isdir fs dir' = true ->
  Monitor.realpath fs dir' = Monitor.realpath fs dir ->
  Monitor.lookup_dir (Monitor.realpath fs dir) (Monitor.directories m) = None ->
  Monitor.do_monitor fs m (Monitor.ActionAdd recursive [dir; dir'])
  = (Monitor.mkMonitors
       (Monitor.directories m
        ++ [(Monitor.realpath fs dir, Monitor.mkWatch dir recursive)])
       (Monitor.observer m ++ [Monitor.Schedule (Monitor.mkWatch dir recursive)])
       (Monitor.errors m ++ [Monitor.already_monitored dir'])
       (Monitor.printed m),
     Monitor.ReturnedFalse).
Proof.
  intros Hdir Hdir' Hreal Hlook.
  cbn [Monitor.do_monitor Monitor.monitor_add].
  rewrite Hdir. cbn [negb]. rewrite Hlook.
  cbn [Monitor.directories Monitor.observer Monitor.errors Monitor.printed].
  rewrite Hdir'. cbn [negb]. rewrite Hreal.
  by rewrite (lookup_dir_snoc _ (Monitor.mkWatch dir recursive) _ Hlook).
Qed.

Lemma monitor_add_same_directory_example :
  Monitor.do_monitor Monitor.fs0 Monitor.empty
    (Monitor.ActionAdd false ["/srv/in"; "/srv/in/."])
  = (Monitor.mkMonitors
       [("/srv/in", Monitor.mkWatch "/srv/in" false)]
       [Monitor.Schedule (Monitor.mkWatch "/srv/in" false)]
       [Monitor.already_monitored "/srv/in/."]
       [],
     Monitor.ReturnedFalse).
Proof.
  apply (monitor_add_same_directory Monitor.fs0 Monitor.empty "/srv/in" "/srv/in/."
           false);
    reflexivity.
Defined.

(** X23. [monitor add] stops at the first argument that is not a
    directory: its message is written with [Style.RESET], which colorama
    does not have, so the command ends in [AttributeError]; the directories
    before it are monitored, those after it are not looked at. *)
Theorem monitor_add_stops (fs : Monitor.FS) (m : Monitor.Monitors)
    (recursive : bool) (pre post : list string) (dir : string) :
  Forall (λ d, Monitor.isdir fs d = true) pre ->
  Monitor.isdir fs dir = false ->
  Monitor.do_monitor fs m (Monitor.ActionAdd recursive (pre ++ dir :: post))
  = ((Monitor.do_monitor fs m (Monitor.ActionAdd recursive pre)).1,
     Monitor.AttributeError).
Proof.
  intros Hpre Hdir. simpl. rewrite monitor_add_app.
  pose proof (monitor_add_directories fs recursive pre Hpre m) as Hret.
  destruct (Monitor.monitor_add fs recursive m pre) as [m' ended].
  simpl in Hret. subst ended. simpl. by rewrite Hdir.
Qed.

Lemma monitor_add_stops_example :
  Monitor.do_monitor Monitor.fs0 Monitor.empty
    (Monitor.ActionAdd false (["/srv/in"] ++ "/tmp/out" :: ["/srv/later"]))
  = ((Monitor.do_monitor Monitor.fs0 Monitor.empty
        (Monitor.ActionAdd false ["/srv/in"])).1,
     Monitor.AttributeError).
Proof.
  apply (monitor_add_stops Monitor.fs0 Monitor.empty false ["/srv/in"] ["/srv/later"]
           "/tmp/out");
    [repeat constructor | reflexivity].
Defined.

(** X24. Through any session of [monitor] commands, from a shell that
    monitors nothing, the table and the observer agree: no real path is
    monitored twice, every key is the real path of the directory its watch
    was scheduled on, and the watches in the table are exactly those
    scheduled and not unscheduled since, in the order they were added. *)
Theorem monitor_session_consistent (fs : Monitor.FS)
    (commands : list Monitor.Args) :
  Monitor.consistent fs (Monitor.session fs Monitor.empty commands).
Proof.
  assert (H : forall m, Monitor.consistent fs m ->
                Monitor.consistent fs (Monitor.session fs m commands)).
  { induction commands as [|args rest IH]; intros m Hm; [exact Hm |].
    simpl. apply IH. by apply do_monitor_consistent. }
  apply H. repeat split; [apply NoDup_nil_2 | constructor].
Qed.

Example monitor_session :
  let m := Monitor.session Monitor.fs0 Monitor.empty
             [Monitor.ActionAdd true ["/srv/in"; "/srv/drop"];
              Monitor.ActionRemove ["/srv/in/."; "/srv/gone"];
              Monitor.ActionAdd false ["/srv/in/."; "/etc"];
              Monitor.ActionList] in
  Monitor.directories m
  = [("/srv/drop", Monitor.mkWatch "/srv/drop" true);
     ("/srv/in", Monitor.mkWatch "/srv/in/." false)]
  /\ Monitor.active (Monitor.observer m)
     = [Monitor.mkWatch "/srv/drop" true; Monitor.mkWatch "/srv/in/." false]
  /\ length (Monitor.printed m) = 1.
Proof. vm_compute. repeat split. Qed.

(** ** Chains that do not end *)

(** X25. When the parent links above a unit never reach a target without
    parent, as on a cycle, the loop that builds the chain does not end: no
    amount of fuel gives a chain, and [generate_solution] gives no text. *)
Theorem generate_solution_endless (h : Heap) (S : unit_ref -> Prop)
    (u : unit_ref) (flag : string) (fuel : nat) :
  (forall x, S x ->
     exists T p, target_of h x = Some T /\ t_parent T = Some p /\ S p) ->
  S u ->
  build_chain h fuel u = None /\ generate_solution h fuel (u, flag) = None.
Proof.
  intros Hclosed Hu.
  assert (Hloop : forall fuel x acc, S x -> chain_loop h fuel (Some x) acc = None).
  { clear fuel u Hu. induction fuel as [|fuel IH]; intros x acc Hx; [reflexivity |].
    destruct (Hclosed x Hx) as (T & p & HT & Hp & HS).
    simpl. rewrite HT. simpl. rewrite Hp. by apply IH. }
  assert (Hbuild : build_chain h fuel u = None).
  { unfold build_chain. by rewrite Hloop. }
  split; [exact Hbuild |].
  unfold generate_solution. simpl. by rewrite Hbuild.
Qed.

Lemma generate_solution_endless_example :
  build_chain Example.heap_cycle 1000 0 = None /\
  generate_solution Example.heap_cycle 1000 (0, "flag{ok}") = None.
Proof.
  apply (generate_solution_endless Example.heap_cycle (λ x, x = 0 \/ x = 1) 0
           "flag{ok}" 1000).
  - intros x [-> | ->].
    + eexists _, 1. split; [reflexivity |]. split; [reflexivity | by right].
    + eexists _, 0. split; [reflexivity |]. split; [reflexivity | by left].
  - by left.
Defined.
